(** * fast-json: the streaming scanner of [lib/FastJson.js]

    A shallow embedding of the scanner (class [FastJson]) together with the
    path trie it drives (class [EventTree]), and the properties of the
    scanner stated in the specification.

    Conventions of the embedding.
    - A JavaScript string is the list of its UTF-16 code units, a [Buffer]
      the list of its bytes; both are lists of [Z].  Offsets are [Z], as the
      source computes with them ([index + ((strEnd - strStart) + 1)], ...).
    - The loops of the lexers have no bound in the source ([for (;;)]).  They
      are given a [fuel] argument; running out of fuel ([None], [Diverge])
      stands for "has not returned yet", and a loop that has not returned for
      any amount of fuel does not return.
    - A listener is a callback.  What it can do to the scanner is call
      [skip()]; it is modelled by an identifier and by the decision to call
      [skip()] on the value received.  Every invocation is recorded, in
      order, in a log kept next to the scanner's fields. *)

From Stdlib Require Import String Ascii DecimalString ZArith List Bool Lia.
From Stdlib Require DecimalPos DecimalZ.
Import ListNotations.
Set Warnings "-register-all".
Local Open Scope Z_scope.

(** ** Character codes and constants (FastJson.js, lines 3-18) *)

Definition OPEN_BRACE : Z := 123.
Definition CLOSE_BRACE : Z := 125.
Definition OPEN_BRACKET : Z := 91.
Definition CLOSE_BRACKET : Z := 93.
Definition QUOTE : Z := 34.
Definition SPACE : Z := 32.
Definition NEW_LINE : Z := 10.
Definition CARRIAGE_RETURN : Z := 13.
Definition TAB : Z := 9.
Definition COLON : Z := 58.
Definition COMMA : Z := 44.
Definition BACKSLASH : Z := 92.

Inductive FrameType : Type := TYPE_ARRAY | TYPE_OBJECT.

(** A JavaScript string: its code units. *)
Definition jsstring : Type := list Z.

Definition ROOT_KEY : jsstring := [47].

(** ** JavaScript values and data sources *)

(** What [_get] can return: a number, [NaN] ([charCodeAt] out of range) or
    [undefined] (a [Buffer] read out of range). *)
Inductive jsval : Type :=
| JNum (n : Z)
| JNaN
| JUndefined.

(** [v === c] for a numeric constant [c], the comparison of a [switch]. *)
Definition strict_eq (v : jsval) (c : Z) : bool :=
  match v with
  | JNum n => n =? c
  | JNaN => false
  | JUndefined => false
  end.

Infix "===" := strict_eq (at level 70, no associativity).

(** The argument of [write]: [typeof data === 'string'] or a [Buffer]. *)
Inductive Data : Type :=
| Str (s : list Z)
| Buf (b : list Z).

Definition units (data : Data) : list Z :=
  match data with
  | Str s => s
  | Buf b => b
  end.

(** [data.length] *)
Definition data_length (data : Data) : Z := Z.of_nat (length (units data)).

Definition nth_unit (l : list Z) (i : Z) : option Z :=
  if i <? 0 then None else nth_error l (Z.to_nat i).

(** [String.prototype.slice] and [Buffer.prototype.slice]: a negative offset
    counts from the end, offsets are clamped to the length, an absent one
    ([undefined]) is 0 for the start and the length for the end. *)
Definition js_slice (l : list Z) (from to : option Z) : list Z :=
  let len := Z.of_nat (length l) in
  let rel x := if x <? 0 then Z.max (len + x) 0 else Z.min x len in
  let a := match from with Some x => rel x | None => 0 end in
  let b := match to with Some x => rel x | None => len end in
  firstn (Z.to_nat (b - a)) (skipn (Z.to_nat a) l).

(** The range of bytes decoded by [buf.toString(encoding, start, end)]:
    offsets are clamped into [0, length]. *)
Definition buf_range (l : list Z) (from to : option Z) : list Z :=
  let len := Z.of_nat (length l) in
  let a := match from with Some x => Z.max x 0 | None => 0 end in
  let b := match to with Some x => Z.min x len | None => len end in
  firstn (Z.to_nat (b - a)) (skipn (Z.to_nat a) l).

(** [data.slice(start, end)] *)
Definition slice (data : Data) (from to : Z) : Data :=
  match data with
  | Str s => Str (js_slice s (Some from) (Some to))
  | Buf b => Buf (js_slice b (Some from) (Some to))
  end.

(** ** Results of stateful code *)

(** A call returns, throws a [TypeError] (a property read or written on
    [undefined]), or has not returned within the fuel given. *)
Inductive outcome (A : Type) : Type :=
| Ret (a : A)
| TypeError
| Diverge.

Arguments Ret {A} a.
Arguments TypeError {A}.
Arguments Diverge {A}.

Definition bind {A B : Type} (m : outcome A) (k : A -> outcome B) : outcome B :=
  match m with
  | Ret a => k a
  | TypeError => TypeError
  | Diverge => Diverge
  end.

(** A lexer that has not returned within its fuel. *)
Definition lift {A : Type} (o : option A) : outcome A :=
  match o with
  | Some a => Ret a
  | None => Diverge
  end.

Notation "x <- m ;; k" := (bind m (fun x => k))
  (at level 61, m at next level, right associativity).

(** ** Listeners and the path trie *)

(** A listener: its name, and whether it calls [skip()] on the value it is
    given. *)
Record Listener : Type := mkListener {
  lid : nat;
  lskip : Data -> bool
}.

(** One invocation of a listener: which one, the argument it received, and
    whether [skip()] had already been called when it was entered. *)
Record Call : Type := mkCall {
  call_listener : nat;
  call_value : Data;
  call_skipped : bool
}.

(** Modelled from the spec: the nodes of the path trie of [lib/EventTree.js],
    which [FastJson.js] requires and which is not among the sources.  Section
    3 of the specification: a node holds its listeners, in registration
    order, and a mapping from segments to child nodes, with unique keys. *)
Inductive Node : Type :=
| mkNode (listeners : list Listener) (children : list (jsstring * Node)).

Fixpoint key_eqb (a b : jsstring) : bool :=
  match a, b with
  | [], [] => true
  | x :: a', y :: b' => (x =? y) && key_eqb a' b'
  | _, _ => false
  end.

Module EventTree.

Definition listeners (n : Node) : list Listener :=
  match n with mkNode ls _ => ls end.

Definition children (n : Node) : list (jsstring * Node) :=
  match n with mkNode _ ch => ch end.

Definition empty : Node := mkNode [] [].

(** Modelled from the spec: the child of a node for a segment, if any. *)
Fixpoint getChild (ch : list (jsstring * Node)) (key : jsstring) : option Node :=
  match ch with
  | [] => None
  | (k, n) :: rest => if key_eqb k key then Some n else getChild rest key
  end.

(** Modelled from the spec: the child [key] replaced by its image under [f],
    and created first when it is missing. *)
Fixpoint setChild (ch : list (jsstring * Node)) (key : jsstring)
         (f : Node -> Node) : list (jsstring * Node) :=
  match ch with
  | [] => [(key, f empty)]
  | (k, n) :: rest =>
      if key_eqb k key then (k, f n) :: rest
      else (k, n) :: setChild rest key f
  end.

(** Modelled from the spec: registration (section 4.5) walks from a node
    along the path, creating the missing nodes, and appends the listener to
    the listeners of the last one. *)
Fixpoint register (path : list jsstring) (l : Listener) (n : Node) : Node :=
  match path with
  | [] => mkNode (listeners n ++ [l]) (children n)
  | key :: rest =>
      mkNode (listeners n) (setChild (children n) key (register rest l))
  end.

(** Modelled from the spec: class [EventTree] of [lib/EventTree.js], absent
    from the sources.  Section 4.5 of the specification: a tree keyed by path
    segments with a cursor moved by [down]/[up]; following its design notes
    the cursor is the current node with the stack of the nodes above it.
    The constructor receives the root symbol, which is the segment the
    scanner looks up first, from the initial cursor: registered paths hang
    below the child of that name. *)
Record t : Type := mk {
  rootKey : jsstring;
  root : Node;
  node : Node;
  parents : list Node
}.

(** Modelled from the spec: [new EventTree(rootKey, pathSeparator)], for
    paths given as segment sequences. *)
Definition create (rootKey : jsstring) : t :=
  mk rootKey empty empty [].

(** Modelled from the spec: [on(path, listener)], for a path given as a
    segment sequence; called before a scan, with the cursor at the root. *)
Definition on (path : list jsstring) (l : Listener) (e : t) : t :=
  let r := register (rootKey e :: path) l (root e) in
  mk (rootKey e) r r [].

(** Modelled from the spec: [hasNode(key)], true when the cursor has a child
    named [key], whether or not that child has listeners. *)
Definition hasNode (key : jsstring) (e : t) : bool :=
  match getChild (children (node e)) key with
  | Some _ => true
  | None => false
  end.

(** Modelled from the spec: [down(key)] moves the cursor to the child named
    [key].  The scanner only calls it for a key that [hasNode] accepted; for
    another key the cursor is put on a node without listeners or children. *)
Definition down (key : jsstring) (e : t) : t :=
  let child :=
    match getChild (children (node e)) key with
    | Some n => n
    | None => empty
    end in
  mk (rootKey e) (root e) child (node e :: parents e).

(** Modelled from the spec: [up()] moves the cursor to the parent.  The
    scanner only calls it below the root; at the root the cursor stays. *)
Definition up (e : t) : t :=
  match parents e with
  | p :: ps => mk (rootKey e) (root e) p ps
  | [] => e
  end.

(** Modelled from the spec: [hasListener()], whether the node of the cursor
    has any listener. *)
Definition hasListener (e : t) : bool :=
  match listeners (node e) with
  | [] => false
  | _ :: _ => true
  end.

(** Modelled from the spec: [reset()] returns the cursor to the root. *)
Definition reset (e : t) : t :=
  mk (rootKey e) (root e) (root e) [].

(** Number of [down] calls not yet matched by an [up]. *)
Definition depth (e : t) : nat := length (parents e).

(** The listeners [ls] called in order with [value]; [skipped] is the
    scanner's flag on entry, and each listener may raise it. *)
Fixpoint invoke (ls : list Listener) (value : Data) (skipped : bool)
  : list Call * bool :=
  match ls with
  | [] => ([], skipped)
  | l :: rest =>
      let '(calls, skipped') := invoke rest value (skipped || lskip l value) in
      (mkCall (lid l) value skipped :: calls, skipped')
  end.

(** Modelled from the spec: [emit(value)] invokes every listener of the node
    of the cursor, in registration order, synchronously. *)
Definition emit (value : Data) (skipped : bool) (e : t) : list Call * bool :=
  invoke (listeners (node e)) value skipped.

End EventTree.

(** ** The scanner *)

Record Frame : Type := mkFrame {
  frame_type : FrameType;
  frame_start : Z;
  frame_key : jsstring;
  frame_index : Z
}.

(** [this._lastString]: [{}] until the first string is lexed. *)
Record Span : Type := mkSpan {
  span_start : option Z;
  span_end : option Z
}.

(** The fields of a [FastJson] instance; [_stack] has its top first.  [_calls]
    is the log of listener invocations, oldest first. *)
Record FastJson : Type := mkFastJson {
  _stack : list Frame;
  _postColon : bool;
  _lastString : Span;
  _skipped : bool;
  _events : EventTree.t;
  _calls : list Call
}.

Definition set_stack (st : list Frame) (s : FastJson) : FastJson :=
  mkFastJson st (_postColon s) (_lastString s) (_skipped s) (_events s) (_calls s).

Definition set_postColon (b : bool) (s : FastJson) : FastJson :=
  mkFastJson (_stack s) b (_lastString s) (_skipped s) (_events s) (_calls s).

Definition set_lastString (sp : Span) (s : FastJson) : FastJson :=
  mkFastJson (_stack s) (_postColon s) sp (_skipped s) (_events s) (_calls s).

Definition set_skipped (b : bool) (s : FastJson) : FastJson :=
  mkFastJson (_stack s) (_postColon s) (_lastString s) b (_events s) (_calls s).

Definition set_events (e : EventTree.t) (s : FastJson) : FastJson :=
  mkFastJson (_stack s) (_postColon s) (_lastString s) (_skipped s) e (_calls s).

(** [new FastJson()] *)
Definition constructor : FastJson :=
  mkFastJson [] false (mkSpan None None) false (EventTree.create ROOT_KEY) [].

(** [on(path, listener)] *)
Definition on (path : list jsstring) (l : Listener) (s : FastJson) : FastJson :=
  set_events (EventTree.on path l (_events s)) s.

(** [skip()] *)
Definition skip (s : FastJson) : FastJson := set_skipped true s.

(** [_skipCleanUp()] assigns [_stack], [_postColon] and [_skipped] and resets
    the trie; it does not assign [_lastString]. *)
Definition _skipCleanUp (s : FastJson) : FastJson :=
  mkFastJson [] false (_lastString s) false (EventTree.reset (_events s)) (_calls s).

(** [this._events.emit(value)] with the listeners' calls to [skip()]. *)
Definition events_emit (value : Data) (s : FastJson) : FastJson :=
  let '(calls, skipped) := EventTree.emit value (_skipped s) (_events s) in
  mkFastJson (_stack s) (_postColon s) (_lastString s) skipped (_events s)
             (_calls s ++ calls).

(** ** Static helpers *)

Definition _get (data : Data) (index : Z) : jsval :=
  match data with
  | Str s => match nth_unit s index with Some c => JNum c | None => JNaN end
  | Buf b => match nth_unit b index with Some c => JNum c | None => JUndefined end
  end.

Definition codes (s : string) : jsstring :=
  map (fun a => Z.of_N (N_of_ascii a)) (list_ascii_of_string s).

(** [`${frame.index}`] *)
Definition _getKeyForPrimitiveArray (frame : Frame) : jsstring :=
  codes (NilZero.string_of_int (Z.to_int (frame_index frame))).

Fixpoint _parseString_loop (fuel : nat) (data : Data) (i : Z) : option Z :=
  match fuel with
  | O => None
  | S fuel' =>
      let v := _get data i in
      if v === QUOTE then Some i
      else if v === BACKSLASH then _parseString_loop fuel' data (i + 1 + 1)
      else _parseString_loop fuel' data (i + 1)
  end.

Definition _parseString (fuel : nat) (data : Data) (index : Z) : option Z :=
  _parseString_loop fuel data (index + 1).

Definition is_terminator (v : jsval) : bool :=
  (v === CLOSE_BRACKET) || (v === CLOSE_BRACE) || (v === COMMA)
  || (v === TAB) || (v === CARRIAGE_RETURN) || (v === NEW_LINE) || (v === SPACE).

Fixpoint _parsePrimitive_loop (fuel : nat) (data : Data) (i : Z) : option Z :=
  match fuel with
  | O => None
  | S fuel' =>
      if is_terminator (_get data i) then Some i
      else _parsePrimitive_loop fuel' data (i + 1)
  end.

Definition _parsePrimitive (fuel : nat) (data : Data) (index : Z) : option Z :=
  _parsePrimitive_loop fuel data index.

Fixpoint _skipBlock_loop (fuel : nat) (data : Data) (openChar closeChar : Z)
         (blockDepth i : Z) : option Z :=
  if blockDepth >? 0 then
    match fuel with
    | O => None
    | S fuel' =>
        let v := _get data i in
        if v === QUOTE then
          match _parseString fuel' data i with
          | Some strEnd =>
              _skipBlock_loop fuel' data openChar closeChar blockDepth
                              (i + (strEnd - i) + 1)
          | None => None
          end
        else if v === openChar then
          _skipBlock_loop fuel' data openChar closeChar (blockDepth + 1) (i + 1)
        else if v === closeChar then
          _skipBlock_loop fuel' data openChar closeChar (blockDepth - 1) (i + 1)
        else
          _skipBlock_loop fuel' data openChar closeChar blockDepth (i + 1)
    end
  else Some (i - 1).

Definition _skipBlock (fuel : nat) (data : Data) (index openChar closeChar : Z)
  : option Z :=
  _skipBlock_loop fuel data openChar closeChar 1 (index + 1).

(** ** Instance methods *)

Section Scanner.

(** [Buffer.prototype.toString]'s decoder of a range of bytes (UTF-8 by
    default) into a string, a function of the platform. *)
Variable utf8Slice : list Z -> jsstring.

Definition _toString (data : Data) (from to : option Z) : jsstring :=
  match data with
  | Str s => js_slice s from to
  | Buf b => utf8Slice (buf_range b from to)
  end.

(** [this._stack[this._stack.length - 1]]: [undefined] on an empty stack. *)
Definition _getFrame (s : FastJson) : option Frame := hd_error (_stack s).

Definition _getKeyForPrimitiveObject (data : Data) (s : FastJson) : jsstring :=
  _toString data (span_start (_lastString s)) (span_end (_lastString s)).

Definition _getKey (data : Data) (s : FastJson) : jsstring :=
  match _stack s with
  | [] => ROOT_KEY
  | frame :: _ =>
      match frame_type frame with
      | TYPE_ARRAY => _getKeyForPrimitiveArray frame
      | TYPE_OBJECT => _getKeyForPrimitiveObject data s
      end
  end.

Definition _onOpenBlock (fuel : nat) (data : Data) (index : Z) (type : FrameType)
           (openChar closeChar : Z) (s : FastJson) : outcome (Z * FastJson) :=
  let key := _getKey data s in
  if negb (EventTree.hasNode key (_events s)) then
    i <- lift (_skipBlock fuel data index openChar closeChar) ;;
    Ret (i, s)
  else
    let s := set_events (EventTree.down key (_events s)) s in
    let s := set_stack (mkFrame type index key 0 :: _stack s) s in
    let s := set_postColon false s in
    Ret (index, s).

(** [frame.end = index] throws when [pop()] gave [undefined]. *)
Definition _onCloseBlock (data : Data) (index : Z) (s : FastJson)
  : outcome FastJson :=
  match _stack s with
  | [] => TypeError
  | frame :: rest =>
      let s := set_stack rest s in
      let frame_end := index in
      let s :=
        if EventTree.hasListener (_events s)
        then events_emit (slice data (frame_start frame) (frame_end + 1)) s
        else s in
      Ret (set_events (EventTree.up (_events s)) s)
  end.

(** The body shared by the two branches of [_emitPrimitiveOrString]. *)
Definition emit_at (key : jsstring) (data : Data) (from to : Z) (s : FastJson)
  : FastJson :=
  if EventTree.hasNode key (_events s) then
    let s := set_events (EventTree.down key (_events s)) s in
    let s :=
      if EventTree.hasListener (_events s)
      then events_emit (slice data from to) s
      else s in
    set_events (EventTree.up (_events s)) s
  else s.

(** [frame.type] is only read when [_postColon] is false, and throws when
    the stack is empty. *)
Definition _emitPrimitiveOrString (data : Data) (from to : Z) (s : FastJson)
  : outcome FastJson :=
  let frame := _getFrame s in
  if _postColon s then
    Ret (emit_at (_getKeyForPrimitiveObject data s) data from to s)
  else
    match frame with
    | None => TypeError
    | Some frame =>
        match frame_type frame with
        | TYPE_ARRAY => Ret (emit_at (_getKeyForPrimitiveArray frame) data from to s)
        | TYPE_OBJECT => Ret s
        end
    end.

Definition _onQuote (fuel : nat) (data : Data) (index : Z) (s : FastJson)
  : outcome (Z * FastJson) :=
  let strStart := index + 1 in
  strEnd <- lift (_parseString fuel data index) ;;
  s <- _emitPrimitiveOrString data strStart strEnd s ;;
  let s := set_postColon false s in
  let s := set_lastString (mkSpan (Some strStart) (Some strEnd)) s in
  Ret (index + ((strEnd - strStart) + 1), s).

(** [frame.type] throws when the stack is empty; [frame.index++] updates the
    frame on top of the stack in place. *)
Definition _onComma (s : FastJson) : outcome FastJson :=
  match _stack s with
  | [] => TypeError
  | frame :: rest =>
      match frame_type frame with
      | TYPE_ARRAY =>
          Ret (set_stack (mkFrame (frame_type frame) (frame_start frame)
                                  (frame_key frame) (frame_index frame + 1)
                          :: rest) s)
      | TYPE_OBJECT => Ret s
      end
  end.

Definition _onPrimitive (fuel : nat) (data : Data) (index : Z) (s : FastJson)
  : outcome (Z * FastJson) :=
  primEnd <- lift (_parsePrimitive fuel data index) ;;
  s <- _emitPrimitiveOrString data index primEnd s ;;
  let s := set_postColon false s in
  Ret (index + (primEnd - index - 1), s).

(** The [switch] of [write]: one iteration of its loop at offset [i],
    returning the value of [i] at the end of the body. *)
Definition dispatch (fuel : nat) (data : Data) (i : Z) (s : FastJson)
  : outcome (Z * FastJson) :=
  let v := _get data i in
  if v === OPEN_BRACE then
    _onOpenBlock fuel data i TYPE_OBJECT OPEN_BRACE CLOSE_BRACE s
  else if v === OPEN_BRACKET then
    _onOpenBlock fuel data i TYPE_ARRAY OPEN_BRACKET CLOSE_BRACKET s
  else if (v === CLOSE_BRACE) || (v === CLOSE_BRACKET) then
    s <- _onCloseBlock data i s ;; Ret (i, s)
  else if v === QUOTE then
    _onQuote fuel data i s
  else if (v === TAB) || (v === CARRIAGE_RETURN) || (v === NEW_LINE)
          || (v === SPACE) then
    Ret (i, s)
  else if v === COLON then
    Ret (i, set_postColon true s)
  else if v === COMMA then
    s <- _onComma s ;; Ret (i, s)
  else
    _onPrimitive fuel data i s.

(** The loop of [write] from offset [i]. *)
Fixpoint write_loop (fuel : nat) (data : Data) (i : Z) (s : FastJson)
  : outcome FastJson :=
  if (i <? data_length data) && negb (_skipped s) then
    match fuel with
    | O => Diverge
    | S fuel' =>
        r <- dispatch fuel' data i s ;;
        write_loop fuel' data (fst r + 1) (snd r)
    end
  else Ret s.

Definition write (fuel : nat) (data : Data) (s : FastJson) : outcome FastJson :=
  s <- write_loop fuel data 0 s ;;
  if _skipped s then Ret (_skipCleanUp s) else Ret s.

(** The loop of [write], entered at offset [i] in state [s], comes to the
    head of an iteration at offset [i'] in state [s']. *)
Inductive reaches (data : Data) : Z -> FastJson -> Z -> FastJson -> Prop :=
| reaches_here i s : reaches data i s i s
| reaches_next i s fuel r i' s' :
    i < data_length data -> _skipped s = false ->
    dispatch fuel data i s = Ret r ->
    reaches data (fst r + 1) (snd r) i' s' ->
    reaches data i s i' s'.

End Scanner.

(** ** Examples *)

(** JSON text for the examples: an apostrophe stands for the double quote. *)
Definition json (s : string) : Data :=
  Str (map (fun c => if c =? 39 then QUOTE else c) (codes s)).

(** The decoder of a [Buffer] on ASCII bytes. *)
Definition ascii_only (b : list Z) : jsstring := b.

(** A listener that only records its call, and one that calls [skip()]. *)
Definition quiet (id : nat) : Listener := mkListener id (fun _ => false).
Definition skipper (id : nat) : Listener := mkListener id (fun _ => true).

(** [write(data)] with one unit of fuel more than the length of [data]. *)
Definition run (data : Data) (s : FastJson) : outcome FastJson :=
  write ascii_only (S (Z.to_nat (data_length data))) data s.

(** The listeners called, with their arguments, in order. *)
Definition calls_of (o : outcome FastJson) : list (nat * Data) :=
  match o with
  | Ret s => map (fun c => (call_listener c, call_value c)) (_calls s)
  | _ => []
  end.

(** ** What the lexers are specified against *)

(** Number of consecutive backslashes that end just before offset
    [lo + n], not looking below [lo]. *)
Fixpoint bs_run (data : Data) (lo : Z) (n : nat) : Z :=
  match n with
  | O => 0
  | S m =>
      if _get data (lo + Z.of_nat m) === BACKSLASH
      then 1 + bs_run data lo m
      else 0
  end.

(** Number of consecutive backslashes immediately before offset [j], counted
    from offset [lo] on. *)
Definition backslashes_from (data : Data) (lo j : Z) : Z :=
  bs_run data lo (Z.to_nat (j - lo)).

(** Number of consecutive backslashes immediately before offset [j]. *)
Definition backslashes_before (data : Data) (j : Z) : Z :=
  backslashes_from data 0 j.

(** A quote at [j], at or after [lo], with an even number of backslashes
    between [lo] and it. *)
Definition unescaped_quote (data : Data) (lo j : Z) : Prop :=
  lo <= j /\ _get data j = JNum QUOTE /\ Z.even (backslashes_from data lo j) = true.

(** The first such quote. *)
Definition closing_quote (data : Data) (lo j : Z) : Prop :=
  unescaped_quote data lo j /\
  forall k, lo <= k < j -> ~ unescaped_quote data lo k.

(** The scan is at an offset it really reads (not one skipped after a
    backslash), and has met no unescaped quote so far. *)
Definition scanning (data : Data) (lo i : Z) : Prop :=
  lo <= i /\ Z.even (backslashes_from data lo i) = true /\
  forall k, lo <= k < i -> ~ unescaped_quote data lo k.

(** The contents of a quoted string: characters other than the quote and the
    backslash, and pairs of a backslash and any character. *)
Inductive StrBody : list Z -> Prop :=
| StrBody_nil : StrBody []
| StrBody_char c l :
    c <> QUOTE -> c <> BACKSLASH -> StrBody l -> StrBody (c :: l)
| StrBody_escape c l :
    StrBody l -> StrBody (BACKSLASH :: c :: l).

(** Text in which the delimiters [o] and [c] are balanced, quoted strings
    being opaque: what stands between an opening delimiter and the closing
    delimiter that matches it. *)
Inductive Balanced (o c : Z) : list Z -> Prop :=
| Balanced_nil : Balanced o c []
| Balanced_char x l :
    x <> QUOTE -> x <> o -> x <> c -> Balanced o c l -> Balanced o c (x :: l)
| Balanced_string body l :
    StrBody body -> Balanced o c l -> Balanced o c (QUOTE :: body ++ QUOTE :: l)
| Balanced_block inner l :
    Balanced o c inner -> Balanced o c l -> Balanced o c (o :: inner ++ c :: l).

(** The text of [data] from offset [i] on is [l]. *)
Definition suffix_at (data : Data) (i : Z) (l : list Z) : Prop :=
  0 <= i /\ skipn (Z.to_nat i) (units data) = l.

(** The cursor of the trie and the stack of frames are congruent: as many
    [down] calls are outstanding as there are frames. *)
Definition congruent (s : FastJson) : Prop :=
  EventTree.depth (_events s) = length (_stack s).

(** The [default] case of the [switch] of [write]. *)
Definition is_default (v : jsval) : bool :=
  negb ((v === OPEN_BRACE) || (v === OPEN_BRACKET) || (v === CLOSE_BRACE)
        || (v === CLOSE_BRACKET) || (v === QUOTE) || (v === TAB)
        || (v === CARRIAGE_RETURN) || (v === NEW_LINE) || (v === SPACE)
        || (v === COLON) || (v === COMMA)).

(** A call made before [skip()] was called. *)
Definition unskipped (c : Call) : Prop := call_skipped c = false.

(** What a scan has done, whatever the cancellation flag was: frames, flags,
    span, cursor, and the listeners called with their arguments. *)
Definition scan_of (s : FastJson)
  : list Frame * bool * Span * EventTree.t * list (nat * Data) :=
  (_stack s, _postColon s, _lastString s, _events s,
   map (fun c => (call_listener c, call_value c)) (_calls s)).

Definition outcome_map {A B : Type} (f : A -> B) (m : outcome A) : outcome B :=
  match m with
  | Ret a => Ret (f a)
  | TypeError => TypeError
  | Diverge => Diverge
  end.

(** The listeners of the child [key] of the cursor, none when there is no
    such child. *)
Definition listeners_at (key : jsstring) (e : EventTree.t) : list Listener :=
  match EventTree.getChild (EventTree.children (EventTree.node e)) key with
  | Some n => EventTree.listeners n
  | None => []
  end.

(** The scanner after the listeners [ls] have been called with [value]. *)
Definition called (ls : list Listener) (value : Data) (s : FastJson) : FastJson :=
  mkFastJson (_stack s) (_postColon s) (_lastString s)
             (snd (EventTree.invoke ls value (_skipped s))) (_events s)
             (_calls s ++ fst (EventTree.invoke ls value (_skipped s))).

(** *** Documents and scanners of the examples *)

(** A string holding an escaped quote, then a comma. *)
Definition doc_escaped : Data := json "'a\'b',".

(** An array whose first element is an object with a closing brace in a key. *)
Definition doc_brace_in_key : Data := json "[{'a}':1},2]".

(** A scanner with one listener on the root path. *)
Definition root_listener : FastJson := on [] (quiet 0) constructor.

(** An array opened on a string that is never closed. *)
Definition doc_unterminated : Data := json "['ab".

(** A scanner listening on the path a/b, and a document in which that path
    occurs twice: below the key z, which is not registered, and at the top. *)
Definition scanner_ab : FastJson :=
  on [codes "a"; codes "b"] (quiet 1) constructor.

Definition doc_unregistered : Data := json "{'z':{'a':{'b':1}},'a':{'b':2}}".

(** The scanner at offset 5 of that document, on the brace that follows the
    key z. *)
Definition at_unregistered : FastJson :=
  mkFastJson [mkFrame TYPE_OBJECT 0 ROOT_KEY 0] true
             (mkSpan (Some 2) (Some 3)) false
             (EventTree.down ROOT_KEY (_events scanner_ab)) [].

(** A scanner whose listener on the path a calls [skip()]. *)
Definition scanner_skip : FastJson := on [codes "a"] (skipper 1) constructor.

(** The same with a second listener registered on that path. *)
Definition scanner_skip_two : FastJson := on [codes "a"] (quiet 2) scanner_skip.

Definition doc_object : Data := json "{'a':1,'b':[2,3]}".

(** A scanner with listeners on the first two elements of a top-level
    array, and an array whose first element holds a container that no path
    names. *)
Definition scanner_01 : FastJson :=
  on [codes "1"] (quiet 2) (on [codes "0"] (quiet 1) constructor).

Definition doc_stale : Data := json "[{'a':[1]},5]".

(** Documents that are a single scalar. *)
Definition doc_string : Data := json "'abc'".
Definition doc_number : Data := json "12".
Definition doc_number_nl : Data := json "12 ".

(** An object whose only value is a container. *)
Definition doc_nested : Data := json "{'a':[1]}".

(** The state a call returned, for a call that returns. *)
Definition returned (o : outcome FastJson) : FastJson :=
  match o with
  | Ret s => s
  | _ => constructor
  end.

(** All the per-scan state is as after construction. *)
Definition cleared (s : FastJson) : Prop :=
  _stack s = [] /\ _postColon s = false /\
  _lastString s = mkSpan None None /\
  EventTree.node (_events s) = EventTree.root (_events s) /\
  EventTree.parents (_events s) = [].

(** *** Further notions *)

(** The characters that [write] ignores. *)
Definition whitespace (c : Z) : bool :=
  (c =? TAB) || (c =? CARRIAGE_RETURN) || (c =? NEW_LINE) || (c =? SPACE).

(** A value of the kind of [data] (string or buffer) with the units [l]. *)
Definition like (data : Data) (l : list Z) : Data :=
  match data with
  | Str _ => Str l
  | Buf _ => Buf l
  end.

(** The characters that stand between the tokens of a container. *)
Definition separator (c : Z) : bool :=
  whitespace c || (c =? COLON) || (c =? COMMA).

(** The two pairs of delimiters. *)
Definition delimiters (o c : Z) : Prop :=
  (o = OPEN_BRACE /\ c = CLOSE_BRACE) \/
  (o = OPEN_BRACKET /\ c = CLOSE_BRACKET).

(** [l] is empty or starts with a terminator of primitives. *)
Definition terminated (l : list Z) : Prop :=
  match l with
  | [] => True
  | t :: _ => is_terminator (JNum t) = true
  end.

(** What stands between the delimiters of a container in which the tokens
    are well nested: separators, quoted strings, primitives that run up to
    a terminator (or to the end, where the closing delimiter follows) and
    containers of both kinds.  Where the colons and commas stand is not
    constrained. *)
Inductive Nested : list Z -> Prop :=
| Nested_nil : Nested []
| Nested_separator c l :
    separator c = true -> Nested l -> Nested (c :: l)
| Nested_string body l :
    StrBody body -> Nested l -> Nested (QUOTE :: body ++ QUOTE :: l)
| Nested_primitive p l :
    p <> [] -> Forall (fun x => is_default (JNum x) = true) p ->
    terminated l -> Nested l -> Nested (p ++ l)
| Nested_block o c inner l :
    delimiters o c -> Nested inner -> Nested l ->
    Nested (o :: inner ++ c :: l).

(** Two stacks that differ at most by the element index of their top frame. *)
Definition same_frames (st st' : list Frame) : Prop :=
  exists f f' rest,
    st = f :: rest /\ st' = f' :: rest /\
    frame_type f' = frame_type f /\ frame_start f' = frame_start f /\
    frame_key f' = frame_key f.

(** [l] starts with a terminator of primitives. *)
Definition ends_token (l : list Z) : Prop :=
  match l with
  | [] => False
  | t :: _ => is_terminator (JNum t) = true
  end.

(** [Counted rest items n]: [items], which [rest] follows, are well-nested
    tokens as in [Nested], and [n] of them are commas; the commas inside the
    strings and the containers of [items] do not count. *)
Inductive Counted : list Z -> list Z -> Z -> Prop :=
| Counted_nil rest : Counted rest [] 0
| Counted_separator rest c l n :
    separator c = true -> Counted rest l n ->
    Counted rest (c :: l) ((if c =? COMMA then 1 else 0) + n)
| Counted_string rest body l n :
    StrBody body -> Counted rest l n ->
    Counted rest (QUOTE :: body ++ QUOTE :: l) n
| Counted_primitive rest p l n :
    p <> [] -> Forall (fun x => is_default (JNum x) = true) p ->
    ends_token (l ++ rest) -> Counted rest l n -> Counted rest (p ++ l) n
| Counted_block rest o c inner m l n :
    delimiters o c -> Counted (c :: l ++ rest) inner m -> Counted rest l n ->
    Counted rest (o :: inner ++ c :: l) n.

(** The stack after [n] commas at the level of its top frame: the index of
    an array frame has grown by [n]. *)
Definition bump (n : Z) (st : list Frame) : list Frame :=
  match st with
  | [] => []
  | frame :: rest =>
      match frame_type frame with
      | TYPE_ARRAY =>
          mkFrame (frame_type frame) (frame_start frame) (frame_key frame)
                  (frame_index frame + n) :: rest
      | TYPE_OBJECT => frame :: rest
      end
  end.

(** The listeners a scalar is emitted to: after a colon those of the child
    of the cursor named by the pending string, else in an array those of the
    child named by the index of the element, else none. *)
Definition scalar_listeners (utf8Slice : list Z -> jsstring) (data : Data)
           (s : FastJson) : list Listener :=
  if _postColon s then
    listeners_at (_getKeyForPrimitiveObject utf8Slice data s) (_events s)
  else
    match _stack s with
    | frame :: _ =>
        match frame_type frame with
        | TYPE_ARRAY => listeners_at (_getKeyForPrimitiveArray frame) (_events s)
        | TYPE_OBJECT => []
        end
    | [] => []
    end.

(** A primitive followed by a comma, in an array. *)
Definition doc_primitive : Data := json "[true,1]".

(** An object between blanks. *)
Definition doc_padded : Data := json " {'a':[1,true]} ".

(** A document of blanks, and one that starts on a closing bracket. *)
Definition doc_blank : Data := Str [SPACE; TAB; NEW_LINE; CARRIAGE_RETURN].
Definition doc_stray : Data := json " ]".

(** The scanner inside the object of [doc_object], before its first key. *)
Definition in_object : FastJson :=
  set_stack [mkFrame TYPE_OBJECT 0 ROOT_KEY 0] root_listener.

(** An array whose first elements hold commas of their own. *)
Definition doc_elements : Data := json "['x,y',[8,9],5]".

(** The scanner inside an array opened at offset 0, before its first
    element. *)
Definition in_array : FastJson :=
  set_stack [mkFrame TYPE_ARRAY 0 ROOT_KEY 0] root_listener.

(** ** Reads *)

Lemma strict_eq_true (v : jsval) (c : Z) : (v === c) = true <-> v = JNum c.
Proof.
  destruct v as [n| |]; simpl; split; intro H; try discriminate.
  - apply Z.eqb_eq in H. now subst.
  - injection H as ->. apply Z.eqb_refl.
Qed.

Lemma strict_eq_num (n c : Z) : (JNum n === c) = (n =? c).
Proof. reflexivity. Qed.

Lemma nth_unit_Some (l : list Z) (i c : Z) :
  nth_unit l i = Some c -> 0 <= i < Z.of_nat (length l).
Proof.
  unfold nth_unit. destruct (Z.ltb_spec i 0) as [|Hi]; [discriminate|].
  intro H. assert (Hn : nth_error l (Z.to_nat i) <> None) by congruence.
  apply nth_error_Some in Hn. lia.
Qed.

Lemma nth_unit_None (l : list Z) (i : Z) :
  nth_unit l i = None <-> i < 0 \/ Z.of_nat (length l) <= i.
Proof.
  unfold nth_unit. destruct (Z.ltb_spec i 0) as [|Hi].
  - split; auto.
  - rewrite nth_error_None. lia.
Qed.

Lemma get_num_range (data : Data) (i c : Z) :
  _get data i = JNum c -> 0 <= i < data_length data.
Proof.
  unfold data_length.
  destruct data as [s|b]; simpl;
    (destruct (nth_unit _ i) eqn:E; [|discriminate]);
    intros _; eapply nth_unit_Some; eauto.
Qed.

Lemma get_in_range (data : Data) (i : Z) :
  0 <= i < data_length data -> exists c, _get data i = JNum c.
Proof.
  unfold data_length. intro H.
  destruct data as [s|b]; simpl in *;
    (destruct (nth_unit _ i) eqn:E; [eauto|]);
    apply nth_unit_None in E; lia.
Qed.

Lemma get_out_of_range (data : Data) (i : Z) :
  data_length data <= i ->
  _get data i = match data with Str _ => JNaN | Buf _ => JUndefined end.
Proof.
  unfold data_length. intro H.
  destruct data as [s|b]; simpl in *;
    (destruct (nth_unit _ i) eqn:E; [|reflexivity]);
    apply nth_unit_Some in E; lia.
Qed.

Lemma get_out_of_range_eq (data : Data) (i c : Z) :
  data_length data <= i -> (_get data i === c) = false.
Proof.
  intro H. rewrite (get_out_of_range _ _ H). now destruct data.
Qed.

Lemma suffix_at_head (data : Data) (i x : Z) (l : list Z) :
  suffix_at data i (x :: l) -> _get data i = JNum x.
Proof.
  intros [Hi H].
  assert (E : nth_unit (units data) i = Some x).
  { unfold nth_unit. destruct (Z.ltb_spec i 0); [lia|].
    rewrite <- (firstn_skipn (Z.to_nat i) (units data)) at 1.
    rewrite H. rewrite nth_error_app2 by (rewrite length_firstn; lia).
    rewrite length_firstn.
    assert (Hle : (Z.to_nat i <= length (units data))%nat).
    { destruct (Nat.le_gt_cases (Z.to_nat i) (length (units data))); auto.
      rewrite skipn_all2 in H by lia. discriminate. }
    replace (Z.to_nat i - Nat.min (Z.to_nat i) (length (units data)))%nat
      with O by lia.
    reflexivity. }
  destruct data; simpl in *; now rewrite E.
Qed.

Lemma suffix_at_app (data : Data) (i : Z) (a l : list Z) :
  suffix_at data i (a ++ l) -> suffix_at data (i + Z.of_nat (length a)) l.
Proof.
  intros [Hi H]. split; [lia|].
  replace (Z.to_nat (i + Z.of_nat (length a)))
    with (length a + Z.to_nat i)%nat by lia.
  rewrite <- skipn_skipn, H.
  rewrite skipn_app, skipn_all, Nat.sub_diag. reflexivity.
Qed.

Lemma suffix_at_tail (data : Data) (i x : Z) (l : list Z) :
  suffix_at data i (x :: l) -> suffix_at data (i + 1) l.
Proof.
  intro H. apply (suffix_at_app data i [x] l) in H. exact H.
Qed.

Lemma suffix_at_split (data : Data) (pre l : list Z) :
  units data = pre ++ l -> suffix_at data (Z.of_nat (length pre)) l.
Proof.
  intro H. split; [lia|].
  rewrite Nat2Z.id, H, skipn_app, skipn_all, Nat.sub_diag. reflexivity.
Qed.

(** ** The string lexer *)

Lemma parseString_loop_mono (fuel fuel' : nat) (data : Data) (i r : Z) :
  _parseString_loop fuel data i = Some r -> (fuel <= fuel')%nat ->
  _parseString_loop fuel' data i = Some r.
Proof.
  revert fuel' i. induction fuel as [|fuel IH]; intros fuel' i H Hle;
    [discriminate|].
  destruct fuel' as [|fuel']; [lia|]. simpl in *.
  destruct (_get data i === QUOTE); [assumption|].
  destruct (_get data i === BACKSLASH); apply IH; (assumption || lia).
Qed.

Lemma backslashes_from_start (data : Data) (lo : Z) :
  backslashes_from data lo lo = 0.
Proof. unfold backslashes_from. now rewrite Z.sub_diag. Qed.

Lemma backslashes_from_step (data : Data) (lo i : Z) :
  lo <= i ->
  backslashes_from data lo (i + 1) =
  if _get data i === BACKSLASH then 1 + backslashes_from data lo i else 0.
Proof.
  intro H. unfold backslashes_from.
  replace (Z.to_nat (i + 1 - lo)) with (S (Z.to_nat (i - lo))) by lia.
  simpl. replace (lo + Z.of_nat (Z.to_nat (i - lo))) with i by lia.
  reflexivity.
Qed.

Lemma even_succ_odd (x : Z) : Z.even x = true -> Z.even (1 + x) = false.
Proof. intro H. rewrite Z.even_add, H. reflexivity. Qed.

Lemma even_succ_succ (x : Z) : Z.even x = true -> Z.even (1 + (1 + x)) = true.
Proof. intro H. rewrite !Z.even_add, H. reflexivity. Qed.

Lemma closing_quote_unique (data : Data) (lo j j' : Z) :
  closing_quote data lo j -> closing_quote data lo j' -> j = j'.
Proof.
  intros [Hj Hmin] [Hj' Hmin'].
  destruct (Z.lt_trichotomy j j') as [Hlt|[Heq|Hgt]]; [|assumption|].
  - exfalso. apply (Hmin' j); [destruct Hj; lia | assumption].
  - exfalso. apply (Hmin j'); [destruct Hj'; lia | assumption].
Qed.

Lemma scanning_start (data : Data) (lo : Z) : scanning data lo lo.
Proof.
  split; [lia|]. split; [now rewrite backslashes_from_start | intros k Hk; lia].
Qed.

Lemma scanning_next (data : Data) (lo i : Z) :
  scanning data lo i ->
  (_get data i === QUOTE) = false -> (_get data i === BACKSLASH) = false ->
  scanning data lo (i + 1).
Proof.
  intros (Hlo & Hev & Hmin) HQ HB. split; [lia|]. split.
  - rewrite backslashes_from_step, HB by assumption. reflexivity.
  - intros k Hk. destruct (Z.eq_dec k i) as [->|Hne].
    + intros (_ & Hq & _). apply strict_eq_true in Hq. congruence.
    + apply Hmin. lia.
Qed.

Lemma scanning_escape (data : Data) (lo i : Z) :
  scanning data lo i ->
  (_get data i === QUOTE) = false -> (_get data i === BACKSLASH) = true ->
  scanning data lo (i + 1 + 1) /\ ~ unescaped_quote data lo (i + 1).
Proof.
  intros (Hlo & Hev & Hmin) HQ HB.
  assert (Hodd : Z.even (backslashes_from data lo (i + 1)) = false).
  { rewrite backslashes_from_step, HB by assumption. now apply even_succ_odd. }
  assert (Hesc : ~ unescaped_quote data lo (i + 1)).
  { intros (_ & _ & He). congruence. }
  split; [|assumption]. split; [lia|]. split.
  - rewrite backslashes_from_step by lia.
    destruct (_get data (i + 1) === BACKSLASH); [|reflexivity].
    rewrite backslashes_from_step, HB by assumption.
    now apply even_succ_succ.
  - intros k Hk. destruct (Z.eq_dec k (i + 1)) as [->|Hne]; [assumption|].
    destruct (Z.eq_dec k i) as [->|Hne'].
    + intros (_ & Hq & _). apply strict_eq_true in Hq. congruence.
    + apply Hmin. lia.
Qed.

Lemma parseString_loop_sound (fuel : nat) (data : Data) (lo i r : Z) :
  scanning data lo i ->
  _parseString_loop fuel data i = Some r -> closing_quote data lo r.
Proof.
  revert i. induction fuel as [|fuel IH]; intros i Hs H; [discriminate|].
  simpl in H. destruct (_get data i === QUOTE) eqn:HQ.
  - injection H as <-. destruct Hs as (Hlo & Hev & Hmin).
    apply strict_eq_true in HQ. repeat split; assumption.
  - destruct (_get data i === BACKSLASH) eqn:HB.
    + apply (IH (i + 1 + 1)); [|assumption].
      now apply scanning_escape.
    + apply (IH (i + 1)); [|assumption]. now apply scanning_next.
Qed.

Lemma parseString_loop_finds (n : nat) (data : Data) (lo i j : Z) :
  scanning data lo i -> unescaped_quote data lo j -> i <= j ->
  (Z.to_nat (j - i) <= n)%nat ->
  exists r, _parseString_loop (S n) data i = Some r /\ closing_quote data lo r.
Proof.
  revert i. induction n as [n IH] using lt_wf_ind. intros i Hs Hj Hij Hn.
  cbn [_parseString_loop]. destruct (_get data i === QUOTE) eqn:HQ.
  - exists i. split; [reflexivity|].
    apply (parseString_loop_sound 1 data lo i i Hs). simpl. now rewrite HQ.
  - assert (Hne : i <> j).
    { intros ->. destruct Hj as (_ & Hq & _). apply strict_eq_true in Hq.
      congruence. }
    destruct (_get data i === BACKSLASH) eqn:HB.
    + destruct (scanning_escape data lo i Hs HQ HB) as [Hs' Hesc].
      assert (Hne' : i + 1 <> j) by (intro E; subst j; contradiction).
      destruct n as [|n]; [lia|].
      apply (IH n); [lia|assumption|assumption|lia|lia].
    + destruct n as [|n]; [lia|].
      apply (IH n); [lia| |assumption|lia|lia].
      now apply scanning_next.
Qed.

Lemma backslashes_from_bound (data : Data) (lo : Z) (n : nat) :
  0 < lo -> (_get data (lo - 1) === BACKSLASH) = false ->
  backslashes_from data 0 (lo + Z.of_nat n) =
  backslashes_from data lo (lo + Z.of_nat n).
Proof.
  intros Hlo HB. induction n as [|n IH].
  - rewrite Z.add_0_r, backslashes_from_start.
    replace lo with (lo - 1 + 1) at 1 by lia.
    rewrite backslashes_from_step, HB by lia. reflexivity.
  - replace (lo + Z.of_nat (S n)) with (lo + Z.of_nat n + 1) by lia.
    rewrite !backslashes_from_step by lia. now rewrite IH.
Qed.

Lemma backslashes_before_from (data : Data) (index j : Z) :
  _get data index = JNum QUOTE -> index < j ->
  backslashes_before data j = backslashes_from data (index + 1) j.
Proof.
  intros Hq Hj. pose proof (get_num_range _ _ _ Hq) as Hr.
  unfold backslashes_before.
  replace j with (index + 1 + Z.of_nat (Z.to_nat (j - index - 1))) by lia.
  apply backslashes_from_bound; [lia|].
  replace (index + 1 - 1) with index by lia. now rewrite Hq.
Qed.

Lemma parseString_loop_S (fuel : nat) (data : Data) (i : Z) :
  _parseString_loop (S fuel) data i =
  if _get data i === QUOTE then Some i
  else if _get data i === BACKSLASH then _parseString_loop fuel data (i + 1 + 1)
  else _parseString_loop fuel data (i + 1).
Proof. reflexivity. Qed.

Lemma parseString_loop_body (body : list Z) :
  StrBody body ->
  forall (data : Data) (i : Z) (rest : list Z) (n : nat),
    suffix_at data i (body ++ QUOTE :: rest) ->
    _parseString_loop (S (length body + n)) data i
    = Some (i + Z.of_nat (length body)).
Proof.
  induction 1 as [|c l Hq Hb _ IH|c l _ IH]; intros data i rest n Hs;
    cbn [app] in Hs;
    rewrite parseString_loop_S, (suffix_at_head _ _ _ _ Hs), !strict_eq_num.
  - simpl. f_equal. lia.
  - apply Z.eqb_neq in Hq, Hb. rewrite Hq, Hb.
    cbn [length Nat.add].
    rewrite (IH data (i + 1) rest n) by (apply suffix_at_tail in Hs; exact Hs).
    f_equal. lia.
  - change (BACKSLASH =? QUOTE) with false. rewrite Z.eqb_refl.
    cbn [length Nat.add].
    replace (S (length l + n)) with (length l + S n)%nat by lia.
    apply (parseString_loop_mono (S (length l + n))); [|lia].
    rewrite (IH data (i + 1 + 1) rest n)
      by (do 2 apply suffix_at_tail in Hs; exact Hs).
    f_equal. lia.
Qed.

(** ** The primitive lexer *)

Lemma parsePrimitive_loop_mono (fuel fuel' : nat) (data : Data) (i r : Z) :
  _parsePrimitive_loop fuel data i = Some r -> (fuel <= fuel')%nat ->
  _parsePrimitive_loop fuel' data i = Some r.
Proof.
  revert fuel' i. induction fuel as [|fuel IH]; intros fuel' i H Hle;
    [discriminate|].
  destruct fuel' as [|fuel']; [lia|]. simpl in *.
  destruct (is_terminator (_get data i)); [assumption|].
  apply IH; (assumption || lia).
Qed.

Lemma parsePrimitive_loop_sound (fuel : nat) (data : Data) (i r : Z) :
  _parsePrimitive_loop fuel data i = Some r ->
  i <= r /\ is_terminator (_get data r) = true /\
  forall k, i <= k < r -> is_terminator (_get data k) = false.
Proof.
  revert i. induction fuel as [|fuel IH]; intros i H; [discriminate|].
  simpl in H. destruct (is_terminator (_get data i)) eqn:Ht.
  - injection H as <-. repeat split; [lia|assumption|intros k Hk; lia].
  - destruct (IH _ H) as (Hle & Hr & Hmin). repeat split; [lia|assumption|].
    intros k Hk. destruct (Z.eq_dec k i) as [->|Hne]; [assumption|].
    apply Hmin. lia.
Qed.

Lemma parsePrimitive_loop_finds (n : nat) (data : Data) (i j : Z) :
  i <= j -> is_terminator (_get data j) = true ->
  (Z.to_nat (j - i) <= n)%nat ->
  exists r, _parsePrimitive_loop (S n) data i = Some r.
Proof.
  revert i. induction n as [|n IH]; intros i Hij Hj Hn.
  - replace i with j by lia. simpl. rewrite Hj. eauto.
  - cbn [_parsePrimitive_loop]. destruct (is_terminator (_get data i)) eqn:Ht.
    + eauto.
    + assert (i <> j) by (intros ->; congruence).
      apply (IH (i + 1)); [lia|assumption|lia].
Qed.

Lemma is_terminator_out_of_range (data : Data) (i : Z) :
  data_length data <= i -> is_terminator (_get data i) = false.
Proof.
  intro H. unfold is_terminator.
  now rewrite !(get_out_of_range_eq data i _ H).
Qed.

(** ** The block-skip scanner *)

Lemma skipBlock_loop_mono (fuel fuel' : nat) (data : Data) (o c d i r : Z) :
  _skipBlock_loop fuel data o c d i = Some r -> (fuel <= fuel')%nat ->
  _skipBlock_loop fuel' data o c d i = Some r.
Proof.
  revert fuel' d i. induction fuel as [|fuel IH]; intros fuel' d i H Hle.
  - simpl in H. destruct fuel'; simpl; destruct (d >? 0); congruence.
  - destruct fuel' as [|fuel']; [lia|]. cbn [_skipBlock_loop] in *.
    destruct (d >? 0); [|assumption].
    destruct (_get data i === QUOTE).
    + unfold _parseString in *.
      destruct (_parseString_loop fuel data (i + 1)) as [e|] eqn:E;
        [|discriminate].
      rewrite (parseString_loop_mono fuel fuel' data (i + 1) e E) by lia.
      apply IH; (assumption || lia).
    + destruct (_get data i === o); [apply IH; (assumption || lia)|].
      destruct (_get data i === c); apply IH; (assumption || lia).
Qed.

Lemma skipBlock_loop_S (fuel : nat) (data : Data) (o c d i : Z) :
  0 < d ->
  _skipBlock_loop (S fuel) data o c d i =
  if _get data i === QUOTE then
    match _parseString fuel data i with
    | Some strEnd => _skipBlock_loop fuel data o c d (i + (strEnd - i) + 1)
    | None => None
    end
  else if _get data i === o then _skipBlock_loop fuel data o c (d + 1) (i + 1)
  else if _get data i === c then _skipBlock_loop fuel data o c (d - 1) (i + 1)
  else _skipBlock_loop fuel data o c d (i + 1).
Proof.
  intro Hd. apply Z.gtb_lt in Hd. cbn [_skipBlock_loop]. now rewrite Hd.
Qed.

Lemma skipBlock_loop_done (fuel : nat) (data : Data) (o c d i : Z) :
  d <= 0 -> _skipBlock_loop fuel data o c d i = Some (i - 1).
Proof.
  intro Hd. assert (E : (d >? 0) = false) by (rewrite Z.gtb_ltb; now apply Z.ltb_ge).
  destruct fuel; cbn [_skipBlock_loop]; now rewrite E.
Qed.

Lemma skipBlock_loop_balanced (o c : Z) (items : list Z) :
  o <> QUOTE -> c <> QUOTE -> o <> c -> Balanced o c items ->
  forall (data : Data) (i d r : Z) (rest : list Z) (n : nat),
    0 < d -> suffix_at data i (items ++ rest) ->
    _skipBlock_loop n data o c d (i + Z.of_nat (length items)) = Some r ->
    _skipBlock_loop (n + length items) data o c d i = Some r.
Proof.
  intros Ho Hc Hoc. induction 1 as [|x l Hxq Hxo Hxc _ IH|body l Hb _ IH
                                    |inner l _ IHi _ IHl];
    intros data i d r rest n Hd Hs H; cbn [app length] in *.
  - rewrite Z.add_0_r in H. now rewrite Nat.add_0_r.
  - rewrite Nat.add_succ_r, skipBlock_loop_S by assumption.
    rewrite (suffix_at_head _ _ _ _ Hs), !strict_eq_num.
    apply Z.eqb_neq in Hxq, Hxo, Hxc. rewrite Hxq, Hxo, Hxc.
    apply (IH data (i + 1) d r rest n Hd);
      [apply suffix_at_tail in Hs; exact Hs|].
    rewrite <- H. f_equal. lia.
  - rewrite Nat.add_succ_r, skipBlock_loop_S by assumption.
    rewrite (suffix_at_head _ _ _ _ Hs), strict_eq_num, Z.eqb_refl.
    apply suffix_at_tail in Hs. rewrite <- app_assoc in Hs.
    cbn [app] in Hs. unfold _parseString.
    rewrite length_app in *. cbn [length] in *.
    rewrite (parseString_loop_mono (S (length body + 0)) _ data (i + 1)
               (i + 1 + Z.of_nat (length body)));
      [|now apply (parseString_loop_body body Hb data (i + 1) (l ++ rest))|lia].
    apply (skipBlock_loop_mono (n + length l)); [|lia].
    apply (IH data _ d r rest n Hd).
    + apply suffix_at_app in Hs. apply suffix_at_tail in Hs.
      replace (i + (i + 1 + Z.of_nat (length body) - i) + 1)
        with (i + 1 + Z.of_nat (length body) + 1) by lia.
      exact Hs.
    + rewrite <- H. f_equal. lia.
  - rewrite Nat.add_succ_r, skipBlock_loop_S by assumption.
    rewrite (suffix_at_head _ _ _ _ Hs), !strict_eq_num.
    apply Z.eqb_neq in Ho as Ho'. rewrite Ho', Z.eqb_refl.
    apply suffix_at_tail in Hs. rewrite <- app_assoc in Hs.
    cbn [app] in Hs. rewrite length_app in *. cbn [length] in *.
    replace (n + (length inner + S (length l)))%nat
      with (S (n + length l) + length inner)%nat by lia.
    apply (IHi data (i + 1) (d + 1) r (c :: l ++ rest)); [lia|assumption|].
    apply suffix_at_app in Hs. rewrite skipBlock_loop_S by lia.
    rewrite (suffix_at_head _ _ _ _ Hs), !strict_eq_num.
    apply Z.eqb_neq in Hc as Hc'. rewrite Hc'.
    assert (Hco : (c =? o) = false) by (apply Z.eqb_neq; congruence).
    rewrite Hco, Z.eqb_refl.
    replace (d + 1 - 1) with d by lia.
    apply (IHl data _ d r rest n Hd);
      [apply suffix_at_tail in Hs; exact Hs|].
    rewrite <- H. f_equal. lia.
Qed.

Lemma skipBlock_balanced (o c : Z) (data : Data) (pre inner post : list Z)
      (fuel : nat) :
  o <> QUOTE -> c <> QUOTE -> o <> c -> Balanced o c inner ->
  units data = pre ++ o :: inner ++ c :: post ->
  (S (length inner) <= fuel)%nat ->
  _skipBlock fuel data (Z.of_nat (length pre)) o c
  = Some (Z.of_nat (length pre) + 1 + Z.of_nat (length inner)).
Proof.
  intros Ho Hc Hoc Hb Hu Hf. unfold _skipBlock.
  apply suffix_at_split, suffix_at_tail in Hu.
  apply (skipBlock_loop_mono (1 + length inner)); [|lia].
  apply (skipBlock_loop_balanced o c inner Ho Hc Hoc Hb data _ 1 _
           (c :: post) 1%nat); [lia|assumption|].
  apply suffix_at_app in Hu. rewrite skipBlock_loop_S by lia.
  rewrite (suffix_at_head _ _ _ _ Hu), !strict_eq_num.
  apply Z.eqb_neq in Hc as Hc'. rewrite Hc'.
  assert (Hco : (c =? o) = false) by (apply Z.eqb_neq; congruence).
  rewrite Hco, Z.eqb_refl, skipBlock_loop_done by lia.
  f_equal. lia.
Qed.

(** ** The dispatch loop *)

Section Properties.

Variable utf8Slice : list Z -> jsstring.

Lemma lift_mono {A : Type} (o o' : option A) :
  (forall r, o = Some r -> o' = Some r) ->
  lift o <> Diverge -> lift o' = lift o.
Proof.
  intros H Hn. destruct o as [r|]; [|now elim Hn].
  now rewrite (H r eq_refl).
Qed.

Lemma bind_mono {A B : Type} (m m' : outcome A) (k : A -> outcome B) :
  (m <> Diverge -> m' = m) -> bind m k <> Diverge -> bind m' k = bind m k.
Proof.
  intros H Hn. destruct m; try (rewrite H by discriminate; reflexivity).
  now elim Hn.
Qed.

Lemma skipBlock_mono (fuel fuel' : nat) (data : Data) (index o c r : Z) :
  _skipBlock fuel data index o c = Some r -> (fuel <= fuel')%nat ->
  _skipBlock fuel' data index o c = Some r.
Proof. apply skipBlock_loop_mono. Qed.

Lemma parseString_mono (fuel fuel' : nat) (data : Data) (index r : Z) :
  _parseString fuel data index = Some r -> (fuel <= fuel')%nat ->
  _parseString fuel' data index = Some r.
Proof. apply parseString_loop_mono. Qed.

Lemma onOpenBlock_mono (fuel fuel' : nat) data index type o c s :
  (fuel <= fuel')%nat ->
  _onOpenBlock utf8Slice fuel data index type o c s <> Diverge ->
  _onOpenBlock utf8Slice fuel' data index type o c s
  = _onOpenBlock utf8Slice fuel data index type o c s.
Proof.
  intro Hle. unfold _onOpenBlock.
  destruct (negb (EventTree.hasNode _ _)); [|reflexivity].
  apply bind_mono, lift_mono. intros r Hr. eapply skipBlock_mono; eauto.
Qed.

Lemma onQuote_mono (fuel fuel' : nat) data index s :
  (fuel <= fuel')%nat ->
  _onQuote utf8Slice fuel data index s <> Diverge ->
  _onQuote utf8Slice fuel' data index s = _onQuote utf8Slice fuel data index s.
Proof.
  intro Hle. unfold _onQuote.
  apply bind_mono, lift_mono. intros r Hr. eapply parseString_mono; eauto.
Qed.

Lemma onPrimitive_mono (fuel fuel' : nat) data index s :
  (fuel <= fuel')%nat ->
  _onPrimitive utf8Slice fuel data index s <> Diverge ->
  _onPrimitive utf8Slice fuel' data index s
  = _onPrimitive utf8Slice fuel data index s.
Proof.
  intro Hle. unfold _onPrimitive.
  apply bind_mono, lift_mono. intros r Hr.
  eapply parsePrimitive_loop_mono; eauto.
Qed.

Lemma dispatch_mono (fuel fuel' : nat) data i s :
  (fuel <= fuel')%nat ->
  dispatch utf8Slice fuel data i s <> Diverge ->
  dispatch utf8Slice fuel' data i s = dispatch utf8Slice fuel data i s.
Proof.
  intro Hle. unfold dispatch.
  repeat match goal with
         | |- context [if ?b then _ else _] => destruct b
         end;
    auto using onOpenBlock_mono, onQuote_mono, onPrimitive_mono.
Qed.

Lemma write_loop_mono (fuel fuel' : nat) data i s :
  (fuel <= fuel')%nat ->
  write_loop utf8Slice fuel data i s <> Diverge ->
  write_loop utf8Slice fuel' data i s = write_loop utf8Slice fuel data i s.
Proof.
  revert fuel' i s. induction fuel as [|fuel IH]; intros fuel' i s Hle Hn.
  - simpl in *. destruct fuel'; simpl;
      destruct ((i <? data_length data) && negb (_skipped s));
      congruence.
  - destruct fuel' as [|fuel']; [lia|]. cbn [write_loop] in *.
    destruct ((i <? data_length data) && negb (_skipped s)); [|reflexivity].
    assert (Hd : dispatch utf8Slice fuel data i s <> Diverge).
    { intro E. rewrite E in Hn. now apply Hn. }
    rewrite (dispatch_mono fuel fuel') by (assumption || lia).
    destruct (dispatch utf8Slice fuel data i s) as [r| |];
      [|reflexivity|reflexivity].
    cbn [bind] in *. apply IH; (assumption || lia).
Qed.

Lemma write_mono (fuel fuel' : nat) data s :
  (fuel <= fuel')%nat ->
  write utf8Slice fuel data s <> Diverge ->
  write utf8Slice fuel' data s = write utf8Slice fuel data s.
Proof.
  intros Hle Hn. unfold write in *.
  rewrite (write_loop_mono fuel fuel'); [reflexivity|assumption|].
  intro E. rewrite E in Hn. now apply Hn.
Qed.

Lemma write_loop_exit (fuel : nat) data i s :
  (i <? data_length data) && negb (_skipped s) = false ->
  write_loop utf8Slice fuel data i s = Ret s.
Proof. intro H. destruct fuel; simpl; now rewrite H. Qed.

Lemma write_loop_S (fuel : nat) data i s :
  i < data_length data -> _skipped s = false ->
  write_loop utf8Slice (S fuel) data i s =
  (r <- dispatch utf8Slice fuel data i s ;;
   write_loop utf8Slice fuel data (fst r + 1) (snd r)).
Proof.
  intros Hi Hs. cbn [write_loop]. apply Z.ltb_lt in Hi. now rewrite Hi, Hs.
Qed.

(** A scan that reaches a point from which the loop does not return does
    not return. *)
Lemma reaches_diverge data i s i' s' :
  reaches utf8Slice data i s i' s' ->
  (forall fuel, write_loop utf8Slice fuel data i' s' = Diverge) ->
  forall fuel, write_loop utf8Slice fuel data i s = Diverge.
Proof.
  induction 1 as [|i s f0 r i' s' Hi Hs Hd _ IH]; intros Hdiv fuel;
    [apply Hdiv|].
  destruct fuel as [|fuel].
  - simpl. apply Z.ltb_lt in Hi. now rewrite Hi, Hs.
  - rewrite write_loop_S by assumption.
    destruct (dispatch utf8Slice fuel data i s) as [r'| |] eqn:E;
      [| |reflexivity].
    + assert (E1 := dispatch_mono fuel (Nat.max fuel f0) data i s).
      assert (E2 := dispatch_mono f0 (Nat.max fuel f0) data i s).
      rewrite E in E1. rewrite Hd in E2.
      rewrite E1 in E2 by (lia || discriminate).
      specialize (E2 ltac:(lia) ltac:(discriminate)).
      injection E2 as ->. cbn [bind]. now apply IH.
    + exfalso.
      assert (E1 := dispatch_mono fuel (Nat.max fuel f0) data i s).
      assert (E2 := dispatch_mono f0 (Nat.max fuel f0) data i s).
      rewrite E in E1. rewrite Hd in E2.
      rewrite E1 in E2 by (lia || discriminate).
      specialize (E2 ltac:(lia) ltac:(discriminate)). discriminate.
Qed.

(** *** What a handler does to the state *)

Lemma FastJson_eta (s : FastJson) :
  mkFastJson (_stack s) (_postColon s) (_lastString s) (_skipped s)
             (_events s) (_calls s) = s.
Proof. now destruct s. Qed.

Lemma called_nil (value : Data) (s : FastJson) : called [] value s = s.
Proof. unfold called. simpl. rewrite app_nil_r. apply FastJson_eta. Qed.

Lemma events_emit_called (value : Data) (s : FastJson) :
  events_emit value s
  = called (EventTree.listeners (EventTree.node (_events s))) value s.
Proof.
  unfold events_emit, called, EventTree.emit.
  now destruct (EventTree.invoke _ value (_skipped s)).
Qed.

Lemma emit_if_listener (value : Data) (s : FastJson) :
  (if EventTree.hasListener (_events s) then events_emit value s else s)
  = called (EventTree.listeners (EventTree.node (_events s))) value s.
Proof.
  rewrite events_emit_called. unfold EventTree.hasListener.
  destruct (EventTree.listeners _); [now rewrite called_nil | reflexivity].
Qed.

Lemma up_down (key : jsstring) (e : EventTree.t) :
  EventTree.up (EventTree.down key e) = e.
Proof. now destruct e. Qed.

Lemma emit_at_called (key : jsstring) (data : Data) (from to : Z) (s : FastJson) :
  emit_at key data from to s
  = called (listeners_at key (_events s)) (slice data from to) s.
Proof.
  unfold emit_at, listeners_at, EventTree.hasNode.
  destruct (EventTree.getChild _ key) as [n|] eqn:E.
  - rewrite emit_if_listener. unfold called, set_events. simpl.
    rewrite E, up_down. reflexivity.
  - now rewrite called_nil.
Qed.

Lemma invoke_names (ls : list Listener) (value : Data) (b : bool) :
  map (fun c => (call_listener c, call_value c))
      (fst (EventTree.invoke ls value b))
  = map (fun l => (lid l, value)) ls.
Proof.
  revert b. induction ls as [|l ls IH]; intro b; [reflexivity|].
  simpl. specialize (IH (b || lskip l value)).
  destruct (EventTree.invoke ls value (b || lskip l value)).
  simpl in *. now rewrite IH.
Qed.

Lemma invoke_raises (ls : list Listener) (value : Data) (b : bool) :
  snd (EventTree.invoke ls value b) = false ->
  b = false /\ Forall unskipped (fst (EventTree.invoke ls value b)).
Proof.
  revert b. induction ls as [|l ls IH]; intro b; simpl.
  - intros ->. split; [reflexivity|constructor].
  - specialize (IH (b || lskip l value)).
    destruct (EventTree.invoke ls value (b || lskip l value)) as [cs b'].
    simpl in *. intro H. destruct (IH H) as [Hb Hcs].
    apply orb_false_elim in Hb as [-> _]. split; [reflexivity|].
    constructor; [reflexivity|assumption].
Qed.

(** One iteration of the loop calls the listeners of at most one node,
    with one value. *)
Lemma dispatch_called (fuel : nat) data i s r :
  dispatch utf8Slice fuel data i s = Ret r ->
  exists ls value s1,
    _calls s1 = _calls s /\ _skipped s1 = _skipped s /\
    _calls (snd r) = _calls (called ls value s1) /\
    _skipped (snd r) = _skipped (called ls value s1).
Proof.
  assert (Hnone : forall s', _calls s' = _calls s -> _skipped s' = _skipped s ->
            exists ls value s1,
              _calls s1 = _calls s /\ _skipped s1 = _skipped s /\
              _calls s' = _calls (called ls value s1) /\
              _skipped s' = _skipped (called ls value s1)).
  { intros s' Hc Hk. exists [], (Str []), s.
    rewrite called_nil. auto. }
  assert (Hscalar : forall from to s',
            _emitPrimitiveOrString utf8Slice data from to s = Ret s' ->
            exists ls value,
              _calls s' = _calls (called ls value s) /\
              _skipped s' = _skipped (called ls value s)).
  { intros from to s'. unfold _emitPrimitiveOrString.
    destruct (_postColon s).
    - intros [= <-]. rewrite emit_at_called. eauto.
    - destruct (_getFrame s) as [frame|]; [|discriminate].
      destruct (frame_type frame); intros [= <-].
      + rewrite emit_at_called. eauto.
      + exists [], (Str []). now rewrite called_nil. }
  unfold dispatch.
  repeat match goal with
         | |- context [if ?b then _ else _] => destruct b
         end.
  - unfold _onOpenBlock. destruct (negb _).
    + destruct (_skipBlock _ _ _ _ _); [|discriminate].
      intros [= <-]. now apply Hnone.
    + intros [= <-]. now apply Hnone.
  - unfold _onOpenBlock. destruct (negb _).
    + destruct (_skipBlock _ _ _ _ _); [|discriminate].
      intros [= <-]. now apply Hnone.
    + intros [= <-]. now apply Hnone.
  - unfold _onCloseBlock. destruct (_stack s) as [|frame rest] eqn:Est;
      [discriminate|].
    cbv zeta. rewrite emit_if_listener. cbn [bind]. intros [= <-].
    do 2 eexists. exists (set_stack rest s). simpl. auto.
  - unfold _onQuote. destruct (_parseString _ _ _) as [e|]; [|discriminate].
    cbn [lift bind].
    destruct (_emitPrimitiveOrString _ _ _ _ _) as [s'| |] eqn:E;
      [|discriminate..].
    cbn [bind]. intros [= <-].
    destruct (Hscalar _ _ _ E) as (ls & value & H1 & H2).
    exists ls, value, s. simpl. auto.
  - intros [= <-]. now apply Hnone.
  - intros [= <-]. now apply Hnone.
  - unfold _onComma. destruct (_stack s) as [|frame rest]; [discriminate|].
    destruct (frame_type frame); intros [= <-]; now apply Hnone.
  - unfold _onPrimitive.
    destruct (_parsePrimitive _ _ _) as [e|]; [|discriminate].
    cbn [lift bind].
    destruct (_emitPrimitiveOrString _ _ _ _ _) as [s'| |] eqn:E;
      [|discriminate..].
    cbn [bind]. intros [= <-].
    destruct (Hscalar _ _ _ E) as (ls & value & H1 & H2).
    exists ls, value, s. simpl. auto.
Qed.

End Properties.

(** ** Properties of the lexers *)

(** C7. Started at the offset of an opening quote, the string lexer returns
    the offset of the first later quote that is not preceded by an odd number
    of backslashes; a quote preceded by an odd number of them (an escaped
    quote) does not end the string. *)
Theorem parseString_closing_quote (data : Data) (index j : Z) :
  _get data index = JNum QUOTE ->
  index < j ->
  _get data j = JNum QUOTE ->
  Z.even (backslashes_before data j) = true ->
  (forall k, index < k < j -> _get data k = JNum QUOTE ->
             Z.even (backslashes_before data k) = false) ->
  exists fuel, forall fuel', (fuel <= fuel')%nat ->
    _parseString fuel' data index = Some j.
Proof.
  intros Hopen Hlt Hq Hev Hmin.
  assert (Hj : closing_quote data (index + 1) j).
  { split.
    - repeat split; [lia|assumption|].
      now rewrite <- (backslashes_before_from data index j).
    - intros k Hk (_ & Hkq & Hkev).
      rewrite <- (backslashes_before_from data index k) in Hkev
        by (assumption || lia).
      rewrite (Hmin k) in Hkev by (assumption || lia). discriminate. }
  destruct (parseString_loop_finds (Z.to_nat (j - (index + 1))) data
              (index + 1) (index + 1) j) as (r & Hr & Hc);
    [apply scanning_start|apply Hj|lia|lia|].
  rewrite (closing_quote_unique _ _ _ _ Hc Hj) in Hr.
  exists (S (Z.to_nat (j - (index + 1)))). intros fuel' Hle.
  unfold _parseString. eapply parseString_loop_mono; eauto.
Qed.

Lemma parseString_closing_quote_witness :
  exists fuel, forall fuel', (fuel <= fuel')%nat ->
    _parseString fuel' doc_escaped 0 = Some 5.
Proof.
  apply (parseString_closing_quote doc_escaped 0 5).
  - reflexivity.
  - lia.
  - reflexivity.
  - reflexivity.
  - intros k Hk.
    assert (Hcases : k = 1 \/ k = 2 \/ k = 3 \/ k = 4) by lia.
    destruct Hcases as [-> | [-> | [-> | ->]]]; vm_compute; congruence.
Defined.

(** C6. Started at the offset of the opening delimiter of a container whose
    contents are balanced and whose strings are terminated, the block-skip
    scanner returns the offset of the matching closing delimiter; what stands
    inside a quoted string, delimiters included, does not count. *)
Theorem skipBlock_matching_close (data : Data) (pre inner post : list Z) (o c : Z) :
  o <> QUOTE -> c <> QUOTE -> o <> c ->
  units data = pre ++ o :: inner ++ c :: post ->
  Balanced o c inner ->
  exists fuel, forall fuel', (fuel <= fuel')%nat ->
    _skipBlock fuel' data (Z.of_nat (length pre)) o c
    = Some (Z.of_nat (length pre) + 1 + Z.of_nat (length inner)).
Proof.
  intros Ho Hc Hoc Hu Hb. exists (S (length inner)). intros fuel' Hle.
  now apply (skipBlock_balanced o c data pre inner post).
Qed.

Lemma skipBlock_matching_close_witness :
  exists fuel, forall fuel', (fuel <= fuel')%nat ->
    _skipBlock fuel' doc_brace_in_key 1 OPEN_BRACE CLOSE_BRACE = Some 8.
Proof.
  apply (skipBlock_matching_close doc_brace_in_key [OPEN_BRACKET]
           [QUOTE; 97; CLOSE_BRACE; QUOTE; COLON; 49] [COMMA; 50; CLOSE_BRACKET]
           OPEN_BRACE CLOSE_BRACE).
  - discriminate.
  - discriminate.
  - discriminate.
  - reflexivity.
  - apply (Balanced_string _ _ [97; CLOSE_BRACE] [COLON; 49]).
    + apply StrBody_char; [discriminate..|].
      apply StrBody_char; [discriminate..|]. apply StrBody_nil.
    + apply Balanced_char; [discriminate..|].
      apply Balanced_char; [discriminate..|]. apply Balanced_nil.
Defined.

Lemma parseString_terminates_iff (data : Data) (index : Z) :
  (exists fuel r, _parseString fuel data index = Some r) <->
  (exists j, unescaped_quote data (index + 1) j).
Proof.
  split.
  - intros (fuel & r & H). exists r.
    apply (parseString_loop_sound fuel data (index + 1) (index + 1) r) in H;
      [apply H | apply scanning_start].
  - intros (j & Hj). pose proof Hj as (Hle & _).
    destruct (parseString_loop_finds (Z.to_nat (j - (index + 1))) data
                (index + 1) (index + 1) j) as (r & Hr & _);
      [apply scanning_start|assumption|lia|lia|].
    eauto.
Qed.

Lemma parsePrimitive_terminates_iff (data : Data) (index : Z) :
  (exists fuel r, _parsePrimitive fuel data index = Some r) <->
  (exists j, index <= j /\ is_terminator (_get data j) = true).
Proof.
  split.
  - intros (fuel & r & H). exists r.
    apply parsePrimitive_loop_sound in H. tauto.
  - intros (j & Hle & Hj).
    destruct (parsePrimitive_loop_finds (Z.to_nat (j - index)) data index j)
      as (r & Hr); [assumption|assumption|lia|].
    unfold _parsePrimitive. eauto.
Qed.

Lemma parseString_loop_past_end (fuel : nat) (data : Data) (i : Z) :
  data_length data <= i -> _parseString_loop fuel data i = None.
Proof.
  intro H. destruct (_parseString_loop fuel data i) as [r|] eqn:E;
    [|reflexivity].
  apply (parseString_loop_sound fuel data i i r (scanning_start data i)) in E.
  destruct E as ((Hle & Hq & _) & _). apply get_num_range in Hq. lia.
Qed.

Lemma parsePrimitive_loop_past_end (fuel : nat) (data : Data) (i : Z) :
  data_length data <= i -> _parsePrimitive_loop fuel data i = None.
Proof.
  intro H. destruct (_parsePrimitive_loop fuel data i) as [r|] eqn:E;
    [|reflexivity].
  apply parsePrimitive_loop_sound in E. destruct E as (Hle & Hr & _).
  rewrite is_terminator_out_of_range in Hr by lia. discriminate.
Qed.

Section Specification.

Variable utf8Slice : list Z -> jsstring.

Lemma dispatch_quote (fuel : nat) data i s :
  _get data i = JNum QUOTE ->
  dispatch utf8Slice fuel data i s = _onQuote utf8Slice fuel data i s.
Proof. intro H. unfold dispatch. now rewrite H. Qed.

Lemma dispatch_default (fuel : nat) data i s :
  is_default (_get data i) = true ->
  dispatch utf8Slice fuel data i s = _onPrimitive utf8Slice fuel data i s.
Proof.
  unfold is_default, dispatch. intro H. apply negb_true_iff in H.
  repeat (apply orb_false_elim in H; destruct H as [H ?]).
  repeat match goal with E : (_ === _) = false |- _ => rewrite E; clear E end.
  reflexivity.
Qed.

Lemma write_loop_diverges_at (data : Data) (i : Z) (s : FastJson) :
  i < data_length data -> _skipped s = false ->
  (forall fuel, dispatch utf8Slice fuel data i s = Diverge) ->
  forall fuel, write_loop utf8Slice fuel data i s = Diverge.
Proof.
  intros Hi Hs Hd [|fuel].
  - simpl. apply Z.ltb_lt in Hi. now rewrite Hi, Hs.
  - rewrite write_loop_S, Hd by assumption. reflexivity.
Qed.

(** C10. The string lexer returns exactly when there is an unescaped quote
    at or after the offset where its scan starts, the primitive lexer
    exactly when there is a terminator at or after its start.  A read past
    the end gives [NaN] or [undefined], which equals no character, so that
    past the end neither loop returns whatever the fuel; and a [write]
    whose scan comes to a string or a primitive without its terminator
    does not return. *)
Theorem lexers_return_iff_terminator :
  (forall data index,
      (exists fuel r, _parseString fuel data index = Some r) <->
      (exists j, unescaped_quote data (index + 1) j))
  /\ (forall data index,
         (exists fuel r, _parsePrimitive fuel data index = Some r) <->
         (exists j, index <= j /\ is_terminator (_get data j) = true))
  /\ (forall l i c,
         Z.of_nat (length l) <= i ->
         _get (Str l) i = JNaN /\ _get (Buf l) i = JUndefined /\
         (JNaN === c) = false /\ (JUndefined === c) = false)
  /\ (forall fuel data i,
         data_length data <= i ->
         _parseString_loop fuel data i = None /\
         _parsePrimitive_loop fuel data i = None)
  /\ (forall data s0 i s,
         reaches utf8Slice data 0 s0 i s ->
         i < data_length data -> _skipped s = false ->
         (_get data i = JNum QUOTE /\
          ~ (exists j, unescaped_quote data (i + 1) j))
         \/ (is_default (_get data i) = true /\
             ~ (exists j, i <= j /\ is_terminator (_get data j) = true)) ->
         forall fuel, write utf8Slice fuel data s0 = Diverge).
Proof.
  split; [exact parseString_terminates_iff|].
  split; [exact parsePrimitive_terminates_iff|].
  split.
  { intros l i c H. repeat split.
    - apply (get_out_of_range (Str l) i H).
    - apply (get_out_of_range (Buf l) i H). }
  split.
  { intros fuel data i H. split.
    - now apply parseString_loop_past_end.
    - now apply parsePrimitive_loop_past_end. }
  intros data s0 i s Hreach Hi Hs Htoken fuel. unfold write.
  rewrite (reaches_diverge utf8Slice data 0 s0 i s Hreach); [reflexivity|].
  apply write_loop_diverges_at; [assumption..|]. intro f.
  destruct Htoken as [[Hq Hnone]|[Hd Hnone]].
  - rewrite dispatch_quote by assumption. unfold _onQuote.
    destruct (_parseString f data i) as [r|] eqn:E; [|reflexivity].
    exfalso. apply Hnone. apply parseString_terminates_iff. eauto.
  - rewrite dispatch_default by assumption. unfold _onPrimitive.
    destruct (_parsePrimitive f data i) as [r|] eqn:E; [|reflexivity].
    exfalso. apply Hnone. apply parsePrimitive_terminates_iff. eauto.
Qed.

(** *** Stack and cursor *)

Lemma emitPrimitiveOrString_frame data from to s s' :
  _emitPrimitiveOrString utf8Slice data from to s = Ret s' ->
  _stack s' = _stack s /\ _events s' = _events s.
Proof.
  unfold _emitPrimitiveOrString. destruct (_postColon s).
  - intros [= <-]. rewrite emit_at_called. split; reflexivity.
  - destruct (_getFrame s) as [frame|]; [|discriminate].
    destruct (frame_type frame); intros [= <-];
      rewrite ?emit_at_called; split; reflexivity.
Qed.

Lemma onOpenBlock_push fuel data index type o c s r :
  EventTree.hasNode (_getKey utf8Slice data s) (_events s) = true ->
  _onOpenBlock utf8Slice fuel data index type o c s = Ret r ->
  _stack (snd r)
  = mkFrame type index (_getKey utf8Slice data s) 0 :: _stack s /\
  _events (snd r) = EventTree.down (_getKey utf8Slice data s) (_events s).
Proof.
  unfold _onOpenBlock. intros ->. cbn [negb]. intros [= <-].
  split; reflexivity.
Qed.

Lemma onOpenBlock_skip fuel data index type o c s r :
  EventTree.hasNode (_getKey utf8Slice data s) (_events s) = false ->
  _onOpenBlock utf8Slice fuel data index type o c s = Ret r ->
  snd r = s.
Proof.
  unfold _onOpenBlock. intros ->. cbn [negb].
  destruct (_skipBlock _ _ _ _ _); [|discriminate]. now intros [= <-].
Qed.

Lemma onCloseBlock_pop data index s s' :
  _onCloseBlock data index s = Ret s' ->
  exists frame,
    _stack s = frame :: _stack s' /\
    _events s' = EventTree.up (_events s).
Proof.
  unfold _onCloseBlock. destruct (_stack s) as [|frame rest]; [discriminate|].
  cbv zeta. rewrite emit_if_listener. intros [= <-]. exists frame.
  split; reflexivity.
Qed.

Lemma onComma_frames s s' :
  _onComma s = Ret s' ->
  length (_stack s') = length (_stack s) /\ _events s' = _events s.
Proof.
  unfold _onComma. destruct (_stack s) as [|frame rest] eqn:E; [discriminate|].
  destruct (frame_type frame); intros [= <-]; simpl; rewrite ?E; auto.
Qed.

Lemma depth_down key e :
  EventTree.depth (EventTree.down key e) = S (EventTree.depth e).
Proof. reflexivity. Qed.

Lemma depth_up e :
  EventTree.depth e <> O ->
  S (EventTree.depth (EventTree.up e)) = EventTree.depth e.
Proof.
  unfold EventTree.depth, EventTree.up.
  destruct (EventTree.parents e); [intro H; now elim H | reflexivity].
Qed.

Lemma onOpenBlock_congruent fuel data index type o c s r :
  congruent s ->
  _onOpenBlock utf8Slice fuel data index type o c s = Ret r ->
  congruent (snd r).
Proof.
  intros Hc H.
  destruct (EventTree.hasNode (_getKey utf8Slice data s) (_events s)) eqn:E.
  - destruct (onOpenBlock_push _ _ _ _ _ _ _ _ E H) as [Hst Hev].
    unfold congruent in *. rewrite Hst, Hev, depth_down. simpl. congruence.
  - now rewrite (onOpenBlock_skip _ _ _ _ _ _ _ _ E H).
Qed.

Lemma onCloseBlock_congruent data index s s' :
  congruent s -> _onCloseBlock data index s = Ret s' -> congruent s'.
Proof.
  intros Hc H. destruct (onCloseBlock_pop _ _ _ _ H) as (frame & Hst & Hev).
  unfold congruent in *. rewrite Hst in Hc. simpl in Hc.
  rewrite Hev. apply eq_add_S. rewrite depth_up; congruence.
Qed.

Lemma dispatch_congruent fuel data i s r :
  congruent s -> dispatch utf8Slice fuel data i s = Ret r ->
  congruent (snd r).
Proof.
  intro Hc. unfold dispatch.
  repeat match goal with
         | |- context [if ?b then _ else _] => destruct b
         end;
    eauto using onOpenBlock_congruent.
  - destruct (_onCloseBlock data i s) as [s'| |] eqn:E; [|discriminate..].
    intros [= <-]. eauto using onCloseBlock_congruent.
  - unfold _onQuote. destruct (_parseString _ _ _); [|discriminate].
    cbn [lift bind].
    destruct (_emitPrimitiveOrString _ _ _ _ _) as [s'| |] eqn:E;
      [|discriminate..].
    intros [= <-]. apply emitPrimitiveOrString_frame in E as [Hst Hev].
    unfold congruent in *. simpl. congruence.
  - now intros [= <-].
  - now intros [= <-].
  - destruct (_onComma s) as [s'| |] eqn:E; [|discriminate..].
    intros [= <-]. apply onComma_frames in E as [Hst Hev].
    unfold congruent in *. simpl. congruence.
  - unfold _onPrimitive. destruct (_parsePrimitive _ _ _); [|discriminate].
    cbn [lift bind].
    destruct (_emitPrimitiveOrString _ _ _ _ _) as [s'| |] eqn:E;
      [|discriminate..].
    intros [= <-]. apply emitPrimitiveOrString_frame in E as [Hst Hev].
    unfold congruent in *. simpl. congruence.
Qed.

Lemma reaches_congruent data i s i' s' :
  reaches utf8Slice data i s i' s' -> congruent s -> congruent s'.
Proof.
  induction 1 as [|i s fuel r i' s' _ _ Hd _ IH]; [trivial|].
  intro Hc. eauto using dispatch_congruent.
Qed.

Lemma write_loop_congruent fuel data i s s' :
  congruent s -> write_loop utf8Slice fuel data i s = Ret s' -> congruent s'.
Proof.
  revert i s. induction fuel as [|fuel IH]; intros i s Hc; cbn [write_loop];
    destruct ((i <? data_length data) && negb (_skipped s));
    try discriminate; try (now intros [= <-]).
  destruct (dispatch utf8Slice fuel data i s) as [r| |] eqn:E;
    [|discriminate..].
  cbn [bind]. apply IH. eauto using dispatch_congruent.
Qed.

(** C8. At the head of every iteration of the loop of [write], and when
    [write] returns, as many [down] calls of the cursor are outstanding as
    there are frames on the stack: an accepted opening delimiter pushes a
    frame and moves the cursor down once, a closing delimiter pops a frame
    and moves the cursor up once, and the emission of a scalar leaves both
    the stack and the cursor as they were. *)
Theorem cursor_congruent_with_stack :
  (forall data s0 i s,
      congruent s0 -> reaches utf8Slice data 0 s0 i s -> congruent s)
  /\ (forall fuel data s0 s,
         congruent s0 -> write utf8Slice fuel data s0 = Ret s -> congruent s)
  /\ (forall fuel data index type o c s r,
         EventTree.hasNode (_getKey utf8Slice data s) (_events s) = true ->
         _onOpenBlock utf8Slice fuel data index type o c s = Ret r ->
         length (_stack (snd r)) = S (length (_stack s)) /\
         EventTree.depth (_events (snd r)) = S (EventTree.depth (_events s)))
  /\ (forall data index s s',
         congruent s -> _onCloseBlock data index s = Ret s' ->
         S (length (_stack s')) = length (_stack s) /\
         S (EventTree.depth (_events s')) = EventTree.depth (_events s))
  /\ (forall data from to s s',
         _emitPrimitiveOrString utf8Slice data from to s = Ret s' ->
         _stack s' = _stack s /\ _events s' = _events s).
Proof.
  split; [intros data s0 i s Hc H; eauto using reaches_congruent|].
  split.
  { intros fuel data s0 s Hc. unfold write.
    destruct (write_loop utf8Slice fuel data 0 s0) as [s1| |] eqn:E;
      [|discriminate..].
    cbn [bind]. apply write_loop_congruent in E; [|assumption].
    destruct (_skipped s1); intros [= <-]; [reflexivity|assumption]. }
  split.
  { intros fuel data index type o c s r Hn H.
    destruct (onOpenBlock_push _ _ _ _ _ _ _ _ Hn H) as [-> ->].
    split; reflexivity. }
  split.
  { intros data index s s' Hc H.
    destruct (onCloseBlock_pop _ _ _ _ H) as (frame & Hst & Hev).
    rewrite Hst, Hev. split; [reflexivity|].
    apply depth_up. unfold congruent in Hc. rewrite Hc, Hst. discriminate. }
  intros data from to s s'. apply emitPrimitiveOrString_frame.
Qed.

(** *** Cancellation *)

Lemma scan_of_fields (s t : FastJson) :
  scan_of s = scan_of t ->
  _stack s = _stack t /\ _postColon s = _postColon t /\
  _lastString s = _lastString t /\ _events s = _events t /\
  map (fun c => (call_listener c, call_value c)) (_calls s)
  = map (fun c => (call_listener c, call_value c)) (_calls t).
Proof. unfold scan_of. intros [= H1 H2 H3 H4 H5]. auto. Qed.

Lemma scan_of_called ls value (s t : FastJson) :
  scan_of s = scan_of t ->
  scan_of (called ls value s) = scan_of (called ls value t).
Proof.
  intro H. apply scan_of_fields in H as (H1 & H2 & H3 & H4 & H5).
  unfold scan_of, called. simpl.
  rewrite !map_app, !invoke_names, H1, H2, H3, H4, H5. reflexivity.
Qed.

Lemma scan_of_set_stack st (s t : FastJson) :
  scan_of s = scan_of t -> scan_of (set_stack st s) = scan_of (set_stack st t).
Proof.
  intro H. apply scan_of_fields in H as (H1 & H2 & H3 & H4 & H5).
  unfold scan_of. simpl. now rewrite H2, H3, H4, H5.
Qed.

Lemma scan_of_set_postColon b (s t : FastJson) :
  scan_of s = scan_of t ->
  scan_of (set_postColon b s) = scan_of (set_postColon b t).
Proof.
  intro H. apply scan_of_fields in H as (H1 & H2 & H3 & H4 & H5).
  unfold scan_of. simpl. now rewrite H1, H3, H4, H5.
Qed.

Lemma scan_of_set_lastString sp (s t : FastJson) :
  scan_of s = scan_of t ->
  scan_of (set_lastString sp s) = scan_of (set_lastString sp t).
Proof.
  intro H. apply scan_of_fields in H as (H1 & H2 & H3 & H4 & H5).
  unfold scan_of. simpl. now rewrite H1, H2, H4, H5.
Qed.

Lemma scan_of_set_events e (s t : FastJson) :
  scan_of s = scan_of t ->
  scan_of (set_events e s) = scan_of (set_events e t).
Proof.
  intro H. apply scan_of_fields in H as (H1 & H2 & H3 & H4 & H5).
  unfold scan_of. simpl. now rewrite H1, H2, H3, H5.
Qed.

Lemma getKey_oblivious data (s t : FastJson) :
  scan_of s = scan_of t -> _getKey utf8Slice data s = _getKey utf8Slice data t.
Proof.
  intro H. apply scan_of_fields in H as (H1 & H2 & H3 & H4 & H5).
  unfold _getKey, _getKeyForPrimitiveObject. now rewrite H1, H3.
Qed.

Lemma emitPrimitiveOrString_oblivious data from to (s t : FastJson) :
  scan_of s = scan_of t ->
  outcome_map scan_of (_emitPrimitiveOrString utf8Slice data from to s)
  = outcome_map scan_of (_emitPrimitiveOrString utf8Slice data from to t).
Proof.
  intro H. pose proof (scan_of_fields _ _ H) as (H1 & H2 & H3 & H4 & H5).
  unfold _emitPrimitiveOrString, _getFrame, _getKeyForPrimitiveObject.
  rewrite H1, H2, H3. destruct (_postColon t).
  - rewrite !emit_at_called, H4. simpl. f_equal. now apply scan_of_called.
  - destruct (hd_error (_stack t)) as [frame|]; [|reflexivity].
    destruct (frame_type frame); simpl; rewrite ?emit_at_called, ?H4;
      f_equal; auto using scan_of_called.
Qed.

Lemma scalar_oblivious data from to (s t : FastJson)
      (k : FastJson -> Z * FastJson) :
  scan_of s = scan_of t ->
  (forall s' t', scan_of s' = scan_of t' ->
                 fst (k s') = fst (k t') /\
                 scan_of (snd (k s')) = scan_of (snd (k t'))) ->
  outcome_map (fun r => (fst r, scan_of (snd r)))
    (s' <- _emitPrimitiveOrString utf8Slice data from to s ;; Ret (k s'))
  = outcome_map (fun r => (fst r, scan_of (snd r)))
      (t' <- _emitPrimitiveOrString utf8Slice data from to t ;; Ret (k t')).
Proof.
  intros H Hk.
  pose proof (emitPrimitiveOrString_oblivious data from to s t H) as E.
  destruct (_emitPrimitiveOrString utf8Slice data from to s) as [s'| |],
           (_emitPrimitiveOrString utf8Slice data from to t) as [t'| |];
    cbn [outcome_map] in E; try discriminate; try reflexivity.
  assert (E' : scan_of s' = scan_of t') by congruence.
  cbn [bind outcome_map]. destruct (Hk s' t' E') as [-> ->]. reflexivity.
Qed.

(** The handling of a token does not look at the cancellation flag. *)
Lemma dispatch_oblivious fuel data i (s t : FastJson) :
  scan_of s = scan_of t ->
  outcome_map (fun r => (fst r, scan_of (snd r)))
              (dispatch utf8Slice fuel data i s)
  = outcome_map (fun r => (fst r, scan_of (snd r)))
                (dispatch utf8Slice fuel data i t).
Proof.
  intro H. pose proof (scan_of_fields _ _ H) as (H1 & H2 & H3 & H4 & H5).
  assert (Hopen : forall type o c,
             outcome_map (fun r => (fst r, scan_of (snd r)))
                         (_onOpenBlock utf8Slice fuel data i type o c s)
             = outcome_map (fun r => (fst r, scan_of (snd r)))
                           (_onOpenBlock utf8Slice fuel data i type o c t)).
  { intros type o c. unfold _onOpenBlock.
    rewrite (getKey_oblivious data s t H), H4.
    destruct (negb _).
    - destruct (_skipBlock fuel data i o c); simpl; [now rewrite H|reflexivity].
    - cbv zeta. cbn [outcome_map fst snd]. f_equal. f_equal.
      unfold scan_of. simpl. now rewrite H1, H3, H5. }
  unfold dispatch.
  repeat match goal with
         | |- context [if ?b then _ else _] => destruct b
         end; auto.
  - unfold _onCloseBlock. rewrite H1.
    destruct (_stack t) as [|frame rest]; [reflexivity|].
    cbv zeta. rewrite !emit_if_listener. simpl. rewrite H4.
    f_equal. f_equal.
    apply scan_of_set_events, scan_of_called, scan_of_set_stack, H.
  - unfold _onQuote.
    destruct (_parseString fuel data i) as [strEnd|]; [|reflexivity].
    cbn [lift bind].
    apply (scalar_oblivious data (i + 1) strEnd s t
             (fun s' => (i + (strEnd - (i + 1) + 1),
                         set_lastString (mkSpan (Some (i + 1)) (Some strEnd))
                                        (set_postColon false s'))) H).
    intros s' t' E. split; [reflexivity|].
    now apply scan_of_set_lastString, scan_of_set_postColon.
  - simpl. now rewrite H.
  - simpl. f_equal. f_equal. now apply scan_of_set_postColon.
  - unfold _onComma. rewrite H1.
    destruct (_stack t) as [|frame rest]; [reflexivity|].
    destruct (frame_type frame); simpl; f_equal; f_equal;
      [now apply scan_of_set_stack | assumption].
  - unfold _onPrimitive.
    destruct (_parsePrimitive fuel data i) as [primEnd|]; [|reflexivity].
    cbn [lift bind].
    apply (scalar_oblivious data i primEnd s t
             (fun s' => (i + (primEnd - i - 1), set_postColon false s')) H).
    intros s' t' E. split; [reflexivity|].
    now apply scan_of_set_postColon.
Qed.

Lemma write_loop_skipped fuel data i s :
  _skipped s = true -> write_loop utf8Slice fuel data i s = Ret s.
Proof.
  intro H. apply write_loop_exit. rewrite H. apply andb_false_r.
Qed.

(** The calls made by the loop: first calls made before any [skip()],
    then the calls of a single emission. *)
Lemma write_loop_calls fuel data i s s' :
  _skipped s = false -> write_loop utf8Slice fuel data i s = Ret s' ->
  exists before ls value,
    _calls s' = _calls s ++ before ++ fst (EventTree.invoke ls value false) /\
    Forall unskipped before.
Proof.
  revert i s. induction fuel as [|fuel IH]; intros i s Hs; cbn [write_loop];
    (destruct ((i <? data_length data) && negb (_skipped s));
     [|intros [= <-]; exists [], [], (Str []); simpl;
       rewrite app_nil_r; split; [reflexivity|constructor]]);
    [discriminate|].
  destruct (dispatch utf8Slice fuel data i s) as [r| |] eqn:E;
    [|discriminate..].
  cbn [bind]. intro Hloop.
  destruct (dispatch_called utf8Slice fuel data i s r E)
    as (ls & value & s1 & Hc1 & Hk1 & Hc & Hk).
  unfold called in Hc, Hk. simpl in Hc, Hk.
  rewrite Hc1, Hk1, Hs in Hc. rewrite Hk1, Hs in Hk.
  destruct (_skipped (snd r)) eqn:Hr.
  - rewrite write_loop_skipped in Hloop by assumption.
    injection Hloop as <-. exists [], ls, value.
    split; [assumption|constructor].
  - symmetry in Hk. apply invoke_raises in Hk as [_ Hall].
    destruct (IH _ _ Hr Hloop) as (before & ls' & value' & Hc' & Hall').
    exists (fst (EventTree.invoke ls value false) ++ before), ls', value'.
    split; [|now apply Forall_app].
    rewrite Hc', Hc, <- !app_assoc. reflexivity.
Qed.

(** C5 (amended). Once [skip()] has been called, no listener is called in
    a later iteration of the loop of [write]: the loop, entered with the
    flag up, returns at once; and the calls of a whole [write] are calls
    made before any [skip()], followed by the calls of one emission, in
    which the listeners registered after the one that called [skip()]
    still receive the value.  The flag is looked at nowhere else: the
    handling of a token goes the same way, to its end, whether or not
    [skip()] has been called. *)
Theorem skip_observed_at_next_iteration :
  (forall fuel data i s,
      _skipped s = true -> write_loop utf8Slice fuel data i s = Ret s)
  /\ (forall fuel data s s',
         _skipped s = false -> write utf8Slice fuel data s = Ret s' ->
         exists before ls value,
           _calls s' = _calls s ++ before
                                ++ fst (EventTree.invoke ls value false) /\
           Forall unskipped before)
  /\ (forall fuel data i s,
         outcome_map (fun r => (fst r, scan_of (snd r)))
                     (dispatch utf8Slice fuel data i (skip s))
         = outcome_map (fun r => (fst r, scan_of (snd r)))
                       (dispatch utf8Slice fuel data i s)).
Proof.
  split; [exact write_loop_skipped|].
  split.
  { intros fuel data s s' Hs. unfold write.
    destruct (write_loop utf8Slice fuel data 0 s) as [s1| |] eqn:E;
      [|discriminate..].
    cbn [bind]. apply write_loop_calls in E; [|assumption].
    destruct (_skipped s1); intros [= <-]; exact E. }
  intros fuel data i s. now apply dispatch_oblivious.
Qed.

(** C4. A container whose entry key has no node under the cursor is
    skipped whole: the iteration at its opening delimiter ends on the
    matching closing delimiter with the scanner as it was (no frame pushed,
    the cursor not moved, no listener called), whatever paths are
    registered elsewhere in the trie, and the loop goes on after it. *)
Theorem unregistered_container_skipped
        (data : Data) (pre inner post : list Z) (o c : Z) (s : FastJson) :
  (o = OPEN_BRACE /\ c = CLOSE_BRACE) \/
  (o = OPEN_BRACKET /\ c = CLOSE_BRACKET) ->
  units data = pre ++ o :: inner ++ c :: post ->
  Balanced o c inner ->
  _skipped s = false ->
  EventTree.hasNode (_getKey utf8Slice data s) (_events s) = false ->
  exists fuel, forall fuel', (fuel <= fuel')%nat ->
    dispatch utf8Slice fuel' data (Z.of_nat (length pre)) s
    = Ret (Z.of_nat (length pre) + 1 + Z.of_nat (length inner), s)
    /\ write_loop utf8Slice (S fuel') data (Z.of_nat (length pre)) s
       = write_loop utf8Slice fuel' data
           (Z.of_nat (length pre) + 1 + Z.of_nat (length inner) + 1) s.
Proof.
  intros Hoc Hu Hb Hs Hnode. exists (S (length inner)). intros fuel' Hle.
  assert (Hget : _get data (Z.of_nat (length pre)) = JNum o).
  { apply suffix_at_split in Hu. eapply suffix_at_head; eauto. }
  assert (Hd : dispatch utf8Slice fuel' data (Z.of_nat (length pre)) s
               = Ret (Z.of_nat (length pre) + 1 + Z.of_nat (length inner), s)).
  { unfold dispatch. rewrite Hget.
    destruct Hoc as [[-> ->]|[-> ->]]; cbn [strict_eq];
      [change (OPEN_BRACE =? OPEN_BRACE) with true
      |change (OPEN_BRACKET =? OPEN_BRACE) with false;
       change (OPEN_BRACKET =? OPEN_BRACKET) with true];
      cbv iota; unfold _onOpenBlock; rewrite Hnode; cbn [negb];
      rewrite (skipBlock_balanced _ _ data pre inner post)
        by (assumption || discriminate); reflexivity. }
  split; [assumption|].
  rewrite write_loop_S, Hd; [reflexivity| |assumption].
  unfold data_length. rewrite Hu, length_app. cbn [length]. lia.
Qed.

(** C3 (amended). When [skip()] has been observed, [write] returns with the
    frame stack empty, the post-colon flag and the cancellation flag down
    and the cursor of the trie at the root; the offsets of the last string
    lexed are left as they were. *)
Theorem skipCleanUp_on_cancelled_write
        (fuel : nat) (data : Data) (s s1 : FastJson) :
  write_loop utf8Slice fuel data 0 s = Ret s1 ->
  _skipped s1 = true ->
  exists s',
    write utf8Slice fuel data s = Ret s' /\
    _stack s' = [] /\ _postColon s' = false /\ _skipped s' = false /\
    EventTree.node (_events s') = EventTree.root (_events s') /\
    EventTree.parents (_events s') = [] /\
    _lastString s' = _lastString s1 /\
    _calls s' = _calls s1.
Proof.
  intros Hloop Hskip. exists (_skipCleanUp s1). unfold write.
  rewrite Hloop. cbn [bind]. rewrite Hskip. repeat split.
Qed.

End Specification.

(** The scan of [doc_unterminated] comes to the quote at offset 1, which no
    later quote closes, and [write] does not return on it. *)
Lemma write_unterminated_string_diverges :
  exists s,
    reaches ascii_only doc_unterminated 0 root_listener 1 s /\
    _get doc_unterminated 1 = JNum QUOTE /\
    forall fuel, write ascii_only fuel doc_unterminated root_listener = Diverge.
Proof.
  assert (Hreach : reaches ascii_only doc_unterminated 0 root_listener 1
                     (returned (outcome_map snd
                        (dispatch ascii_only 0 doc_unterminated 0 root_listener)))).
  { eapply (reaches_next ascii_only doc_unterminated 0 root_listener 0 (_, _));
      [reflexivity|reflexivity|reflexivity|apply reaches_here]. }
  eexists. split; [exact Hreach|]. split; [reflexivity|].
  destruct (lexers_return_iff_terminator ascii_only) as (_ & _ & _ & _ & H).
  apply (H doc_unterminated root_listener 1 _ Hreach).
  - reflexivity.
  - reflexivity.
  - left. split; [reflexivity|].
    intros (j & Hle & Hq & _). apply get_num_range in Hq as Hr.
    change (data_length doc_unterminated) with 4 in Hr.
    assert (Hcases : j = 2 \/ j = 3) by lia.
    destruct Hcases as [-> | ->]; vm_compute in Hq; congruence.
Defined.

(** The cursor and the stack are congruent where the scan of
    [doc_unregistered] stands at offset 5. *)
Lemma cursor_congruent_with_stack_witness : congruent at_unregistered.
Proof.
  destruct (cursor_congruent_with_stack ascii_only) as (H & _).
  apply (H doc_unregistered scanner_ab 5 at_unregistered).
  - reflexivity.
  - eapply (reaches_next _ _ 0 _ 0 (_, _)); [reflexivity..|].
    eapply (reaches_next _ _ 1 _ 4 (_, _)); [reflexivity..|].
    eapply (reaches_next _ _ 4 _ 0 (_, _)); [reflexivity..|].
    apply reaches_here.
Defined.

(** The calls of the cancelled scan of [doc_object]: none before [skip()],
    then those of one emission. *)
Lemma skip_observed_at_next_iteration_witness :
  exists before ls value,
    _calls (returned (write ascii_only 20 doc_object scanner_skip_two))
    = _calls scanner_skip_two ++ before
                              ++ fst (EventTree.invoke ls value false) /\
    Forall unskipped before.
Proof.
  destruct (skip_observed_at_next_iteration ascii_only) as (_ & H & _).
  apply (H 20%nat doc_object scanner_skip_two); reflexivity.
Defined.

(** The scan of [doc_unregistered] comes to offset 5 in the state
    [at_unregistered]. *)
Lemma reaches_at_unregistered :
  reaches ascii_only doc_unregistered 0 scanner_ab 5 at_unregistered.
Proof.
  eapply (reaches_next _ _ 0 _ 0 (_, _)); [reflexivity..|].
  eapply (reaches_next _ _ 1 _ 4 (_, _)); [reflexivity..|].
  eapply (reaches_next _ _ 4 _ 0 (_, _)); [reflexivity..|].
  apply reaches_here.
Qed.

Lemma unregistered_container_skipped_witness :
  exists fuel, forall fuel', (fuel <= fuel')%nat ->
    dispatch ascii_only fuel' doc_unregistered 5 at_unregistered
    = Ret (17, at_unregistered)
    /\ write_loop ascii_only (S fuel') doc_unregistered 5 at_unregistered
       = write_loop ascii_only fuel' doc_unregistered 18 at_unregistered.
Proof.
  apply (unregistered_container_skipped ascii_only doc_unregistered
           (units (json "{'z':")) (units (json "'a':{'b':1}"))
           (units (json ",'a':{'b':2}}"))
           OPEN_BRACE CLOSE_BRACE at_unregistered).
  - left. split; reflexivity.
  - reflexivity.
  - apply (Balanced_string _ _ [97] (units (json ":{'b':1}")));
      [repeat constructor; discriminate|].
    apply Balanced_char; [discriminate..|].
    apply (Balanced_block _ _ (units (json "'b':1")) []); [|apply Balanced_nil].
    apply (Balanced_string _ _ [98] (units (json ":1")));
      [repeat constructor; discriminate|].
    repeat (apply Balanced_char; [discriminate..|]). apply Balanced_nil.
  - reflexivity.
  - reflexivity.
Defined.

(** The listener on a/b is called once, for the occurrence at the top. *)
Example unregistered_run :
  calls_of (run doc_unregistered scanner_ab) = [(1%nat, Str [50])].
Proof. reflexivity. Qed.

Lemma skipCleanUp_on_cancelled_write_witness :
  exists s',
    write ascii_only 20 doc_object scanner_skip = Ret s' /\
    _stack s' = [] /\ _postColon s' = false /\ _skipped s' = false /\
    EventTree.node (_events s') = EventTree.root (_events s') /\
    EventTree.parents (_events s') = [] /\
    _lastString s' = mkSpan (Some 2) (Some 3) /\
    map call_listener (_calls s') = [1%nat].
Proof.
  destruct (skipCleanUp_on_cancelled_write ascii_only 20 doc_object scanner_skip
              (returned (write_loop ascii_only 20 doc_object 0 scanner_skip))
              eq_refl eq_refl) as (s' & H & H1 & H2 & H3 & H4 & H5 & H6 & H7).
  exists s'. rewrite H6, H7. repeat split; assumption.
Defined.

(** C3, as the specification states it, does not hold: after a cancelled
    [write] the offsets of the last string lexed are still there. *)
Lemma cancelled_write_not_cleared :
  exists s1 s',
    write_loop ascii_only 20 doc_object 0 scanner_skip = Ret s1 /\
    _skipped s1 = true /\
    write ascii_only 20 doc_object scanner_skip = Ret s' /\
    _lastString s' = mkSpan (Some 2) (Some 3) /\
    ~ cleared s'.
Proof.
  do 2 eexists. split; [reflexivity|]. split; [reflexivity|].
  split; [reflexivity|]. split; [reflexivity|].
  intros (_ & _ & H & _). discriminate H.
Qed.

(** C5, as the specification states it, does not hold: the second listener
    of the path is called after the first one has called [skip()]. *)
Lemma listener_called_after_skip :
  exists s' c,
    write ascii_only 20 doc_object scanner_skip_two = Ret s' /\
    In c (_calls s') /\ call_listener c = 2%nat /\ call_skipped c = true.
Proof.
  do 2 eexists. split; [reflexivity|].
  split; [right; left; reflexivity|]. split; reflexivity.
Qed.

(** ** Runs on which the scanner departs from its specification *)

(** C1. With listeners on the elements 0 and 1 of the array
    [[{"a":[1]},5]], the listener of element 1 is never called: the value of
    the key a is skipped with the post-colon flag still up, and the scalar 5
    is then looked up under the key a instead of the index 1. *)
Theorem stale_postColon_loses_listener :
  exists s',
    run doc_stale scanner_01 = Ret s' /\
    map (fun c => (call_listener c, call_value c)) (_calls s')
    = [(1%nat, json "{'a':[1]}")] /\
    ~ In 2%nat (map call_listener (_calls s')).
Proof.
  eexists. split; [reflexivity|]. split; [reflexivity|].
  simpl. intros [H|[]]. discriminate H.
Qed.

(** When the value of the key a is a scalar, the flag is reset and the
    listener of element 1 is called. *)
Example listener_called_after_scalar_value :
  calls_of (run (json "[{'a':1},5]") scanner_01)
  = [(1%nat, json "{'a':1}"); (2%nat, json "5")].
Proof. reflexivity. Qed.

(** C2. On a document that is a single quoted string, [write] throws a
    [TypeError] and the listener of the root path is not called:
    [_emitPrimitiveOrString] reads [frame.type] with the stack empty.  A bare
    primitive is the same once it is followed by a terminator, and is never
    left by the primitive lexer when it is not. *)
Theorem top_level_scalar_throws :
  run doc_string root_listener = TypeError /\
  run doc_number_nl root_listener = TypeError /\
  (forall fuel, write ascii_only fuel doc_number root_listener = Diverge).
Proof.
  split; [reflexivity|]. split; [reflexivity|].
  intro fuel. unfold write.
  rewrite (write_loop_diverges_at ascii_only doc_number 0 root_listener);
    [reflexivity..|].
  intro f. rewrite dispatch_default by reflexivity. unfold _onPrimitive.
  unfold _parsePrimitive.
  destruct (_parsePrimitive_loop f doc_number 0) as [r|] eqn:E; [|reflexivity].
  apply parsePrimitive_loop_sound in E. destruct E as (Hle & Hr & _).
  destruct (Z.le_gt_cases (data_length doc_number) r) as [Hout|Hin].
  - rewrite is_terminator_out_of_range in Hr by assumption. discriminate.
  - change (data_length doc_number) with 2 in Hin.
    assert (Hcases : r = 0 \/ r = 1) by lia.
    destruct Hcases as [-> | ->]; discriminate Hr.
Qed.

(** A document that is a container is given whole to the listener of the
    root path, once. *)
Example root_listener_receives_container :
  calls_of (run doc_object root_listener) = [(0%nat, doc_object)].
Proof. reflexivity. Qed.

(** C9. After the array of [{"a":[1]}] has been skipped, the key a having no
    node, the post-colon flag is still up; it stays so through the closing
    brace and to the end of [write]. *)
Theorem postColon_survives_skipped_container :
  (exists s s',
      reaches ascii_only doc_nested 0 root_listener 5 s /\
      _postColon s = true /\
      dispatch ascii_only 10 doc_nested 5 s = Ret (7, s') /\
      _postColon s' = true)
  /\ (exists s', run doc_nested root_listener = Ret s' /\ _postColon s' = true).
Proof.
  split.
  - do 2 eexists. split; [|split; [|split]].
    + eapply (reaches_next _ _ 0 _ 0 (_, _)); [reflexivity..|].
      eapply (reaches_next _ _ 1 _ 4 (_, _)); [reflexivity..|].
      eapply (reaches_next _ _ 4 _ 0 (_, _)); [reflexivity..|].
      apply reaches_here.
    + reflexivity.
    + reflexivity.
    + reflexivity.
  - eexists. split; reflexivity.
Qed.

(** ** Further properties of the lexers *)

Lemma parseString_loop_ge (fuel : nat) (data : Data) (i r : Z) :
  _parseString_loop fuel data i = Some r ->
  i <= r /\ _get data r = JNum QUOTE.
Proof.
  intro H.
  apply (parseString_loop_sound fuel data i i r (scanning_start data i)) in H.
  destruct H as ((Hle & Hq & _) & _). auto.
Qed.

(** X1. Started on a token whose first terminator (closing brace or bracket,
    comma, space, tab, carriage return or line feed) stands at [j], the
    primitive lexer returns [j]. *)
Theorem parsePrimitive_first_terminator (data : Data) (index j : Z) :
  index <= j ->
  is_terminator (_get data j) = true ->
  (forall k, index <= k < j -> is_terminator (_get data k) = false) ->
  exists fuel, forall fuel', (fuel <= fuel')%nat ->
    _parsePrimitive fuel' data index = Some j.
Proof.
  intros Hle Hj Hmin.
  destruct (parsePrimitive_loop_finds (Z.to_nat (j - index)) data index j)
    as (r & Hr); [assumption|assumption|lia|].
  pose proof (parsePrimitive_loop_sound _ _ _ _ Hr) as (Hir & Hrt & Hrmin).
  assert (r = j).
  { destruct (Z.lt_trichotomy r j) as [Hlt|[Heq|Hgt]]; [|assumption|].
    - rewrite Hmin in Hrt by lia. discriminate.
    - rewrite Hrmin in Hj by lia. discriminate. }
  subst r. exists (S (Z.to_nat (j - index))). intros fuel' Hf.
  unfold _parsePrimitive. eapply parsePrimitive_loop_mono; eauto.
Qed.

Lemma parsePrimitive_first_terminator_witness :
  exists fuel, forall fuel', (fuel <= fuel')%nat ->
    _parsePrimitive fuel' doc_primitive 1 = Some 5.
Proof.
  apply (parsePrimitive_first_terminator doc_primitive 1 5).
  - lia.
  - reflexivity.
  - intros k Hk.
    assert (Hcases : k = 1 \/ k = 2 \/ k = 3 \/ k = 4) by lia.
    destruct Hcases as [-> | [-> | [-> | ->]]]; reflexivity.
Defined.

Lemma skipBlock_loop_sound (fuel : nat) (data : Data) (o c d i r : Z) :
  0 < d -> _skipBlock_loop fuel data o c d i = Some r ->
  i <= r /\ _get data r = JNum c.
Proof.
  revert d i. induction fuel as [|fuel IH]; intros d i Hd H.
  - simpl in H. apply Z.gtb_lt in Hd. rewrite Hd in H. discriminate.
  - rewrite skipBlock_loop_S in H by assumption.
    destruct (_get data i === QUOTE).
    + unfold _parseString in H.
      destruct (_parseString_loop fuel data (i + 1)) as [e|] eqn:E;
        [|discriminate].
      apply parseString_loop_ge in E as [He _].
      apply IH in H as [Hr Hc]; [|assumption]. split; [lia|assumption].
    + destruct (_get data i === o).
      * apply IH in H as [Hr Hc]; [|lia]. split; [lia|assumption].
      * destruct (_get data i === c) eqn:Ec.
        -- destruct (Z.eq_dec d 1) as [->|Hne].
           ++ rewrite skipBlock_loop_done in H by lia. injection H as <-.
              split; [lia|]. apply strict_eq_true in Ec.
              now replace (i + 1 - 1) with i by lia.
           ++ apply IH in H as [Hr Hc]; [|lia]. split; [lia|assumption].
        -- apply IH in H as [Hr Hc]; [|assumption]. split; [lia|assumption].
Qed.

(** X2. The block-skip scanner only returns at an offset after the opening
    delimiter that holds the closing delimiter; on data with no closing
    delimiter after [index] it does not return. *)
Theorem skipBlock_returns_on_close (fuel : nat) (data : Data) (index o c r : Z) :
  _skipBlock fuel data index o c = Some r ->
  index < r < data_length data /\ _get data r = JNum c.
Proof.
  unfold _skipBlock. intro H.
  apply skipBlock_loop_sound in H as [Hr Hc]; [|lia].
  pose proof (get_num_range _ _ _ Hc). split; [lia|assumption].
Qed.

Lemma skipBlock_returns_on_close_witness :
  1 < 8 < data_length doc_brace_in_key /\
  _get doc_brace_in_key 8 = JNum CLOSE_BRACE.
Proof.
  apply (skipBlock_returns_on_close 10 doc_brace_in_key 1 OPEN_BRACE CLOSE_BRACE 8).
  reflexivity.
Defined.

Lemma get_like (data : Data) (l : list Z) (i c : Z) :
  (_get (Str l) i === c) = (_get (Buf l) i === c).
Proof. simpl. now destruct (nth_unit l i). Qed.

Lemma parseString_loop_like (fuel : nat) (l : list Z) (i : Z) :
  _parseString_loop fuel (Str l) i = _parseString_loop fuel (Buf l) i.
Proof.
  revert i. induction fuel as [|fuel IH]; intro i; [reflexivity|].
  rewrite !parseString_loop_S, !(get_like (Str l)), !IH. reflexivity.
Qed.

(** X3. The three lexers return the same offsets on a string and on a buffer
    that hold the same units: [NaN] and [undefined], read past the end, both
    match no case. *)
Theorem lexers_same_on_string_and_buffer (fuel : nat) (l : list Z) (index o c : Z) :
  _parseString fuel (Str l) index = _parseString fuel (Buf l) index /\
  _parsePrimitive fuel (Str l) index = _parsePrimitive fuel (Buf l) index /\
  _skipBlock fuel (Str l) index o c = _skipBlock fuel (Buf l) index o c.
Proof.
  split; [apply parseString_loop_like|]. split.
  - unfold _parsePrimitive. generalize index as i.
    induction fuel as [|fuel IH]; intro i; [reflexivity|].
    simpl _parsePrimitive_loop. unfold is_terminator.
    rewrite !(get_like (Str l) l i), IH. reflexivity.
  - unfold _skipBlock. generalize (index + 1) as i. generalize 1 as d.
    induction fuel as [|fuel IH]; intros d i; [reflexivity|].
    cbn [_skipBlock_loop]. destruct (d >? 0); [|reflexivity].
    unfold _parseString.
    rewrite !(get_like (Str l) l i), parseString_loop_like.
    destruct (_get (Buf l) i === QUOTE).
    + destruct (_parseString_loop fuel (Buf l) (i + 1)); [apply IH|reflexivity].
    + rewrite !IH. reflexivity.
Qed.

Lemma codes_inj (a b : string) : codes a = codes b -> a = b.
Proof.
  unfold codes. intro H.
  rewrite <- (string_of_list_ascii_of_string a),
          <- (string_of_list_ascii_of_string b).
  f_equal. revert H.
  generalize (list_ascii_of_string a) as x, (list_ascii_of_string b) as y.
  induction x as [|c x IH]; intros [|c' y] H; try discriminate; [reflexivity|].
  simpl in H. injection H as Hc Hl. f_equal; [|now apply IH].
  apply N2Z.inj in Hc.
  now rewrite <- (ascii_N_embedding c), <- (ascii_N_embedding c'), Hc.
Qed.

Lemma to_int_not_nil (z : Z) : Z.to_int z <> Decimal.Pos Decimal.Nil /\
                              Z.to_int z <> Decimal.Neg Decimal.Nil.
Proof.
  destruct z as [|p|p]; simpl; split; try discriminate;
    intros [= H]; now apply DecimalPos.Unsigned.to_uint_nonnil in H.
Qed.

(** X4. Two array frames with different indices have different keys: the
    key of an element is the decimal writing of its position. *)
Theorem getKeyForPrimitiveArray_inj (frame frame' : Frame) :
  _getKeyForPrimitiveArray frame = _getKeyForPrimitiveArray frame' ->
  frame_index frame = frame_index frame'.
Proof.
  unfold _getKeyForPrimitiveArray. intro H. apply codes_inj in H.
  apply DecimalZ.to_int_inj.
  destruct (to_int_not_nil (frame_index frame)) as [H1 H2].
  destruct (to_int_not_nil (frame_index frame')) as [H1' H2'].
  pose proof (NilZero.isi _ H1 H2) as E. pose proof (NilZero.isi _ H1' H2') as E'.
  rewrite H in E. rewrite E in E'. now injection E'.
Qed.

Lemma getKeyForPrimitiveArray_inj_witness :
  frame_index (mkFrame TYPE_ARRAY 0 ROOT_KEY 12)
  = frame_index (mkFrame TYPE_ARRAY 7 (codes "a") 12).
Proof.
  apply getKeyForPrimitiveArray_inj. reflexivity.
Defined.

Example getKeyForPrimitiveArray_decimal :
  _getKeyForPrimitiveArray (mkFrame TYPE_ARRAY 0 ROOT_KEY 0) = codes "0" /\
  _getKeyForPrimitiveArray (mkFrame TYPE_ARRAY 0 ROOT_KEY 12) = codes "12".
Proof. split; reflexivity. Qed.

(** ** Further properties of the scan *)

Lemma js_slice_middle (a b c : list Z) :
  js_slice (a ++ b ++ c) (Some (Z.of_nat (length a)))
           (Some (Z.of_nat (length a) + Z.of_nat (length b))) = b.
Proof.
  unfold js_slice. rewrite !length_app.
  destruct (Z.ltb_spec (Z.of_nat (length a)) 0); [lia|].
  destruct (Z.ltb_spec (Z.of_nat (length a) + Z.of_nat (length b)) 0); [lia|].
  rewrite !Z.min_l by lia.
  replace (Z.to_nat (Z.of_nat (length a) + Z.of_nat (length b)
                     - Z.of_nat (length a))) with (length b) by lia.
  rewrite Nat2Z.id, skipn_app, skipn_all, Nat.sub_diag. simpl.
  rewrite firstn_app, firstn_all, Nat.sub_diag. simpl. apply app_nil_r.
Qed.

Lemma buf_range_middle (a b c : list Z) :
  buf_range (a ++ b ++ c) (Some (Z.of_nat (length a)))
            (Some (Z.of_nat (length a) + Z.of_nat (length b))) = b.
Proof.
  unfold buf_range. rewrite !length_app.
  rewrite Z.max_l, Z.min_l by lia.
  replace (Z.to_nat (Z.of_nat (length a) + Z.of_nat (length b)
                     - Z.of_nat (length a))) with (length b) by lia.
  rewrite Nat2Z.id, skipn_app, skipn_all, Nat.sub_diag. simpl.
  rewrite firstn_app, firstn_all, Nat.sub_diag. simpl. apply app_nil_r.
Qed.

Lemma whitespace_cases (c : Z) :
  whitespace c = true ->
  c = TAB \/ c = CARRIAGE_RETURN \/ c = NEW_LINE \/ c = SPACE.
Proof.
  unfold whitespace. intro H.
  repeat (apply orb_true_iff in H; destruct H as [H|H]);
    apply Z.eqb_eq in H; auto.
Qed.

Lemma is_default_not_terminator (v : jsval) :
  is_default v = true -> is_terminator v = false.
Proof.
  unfold is_default, is_terminator. intro H. apply negb_true_iff in H.
  repeat (apply orb_false_elim in H; destruct H as [H ?]).
  repeat match goal with E : (_ === _) = false |- _ => rewrite E; clear E end.
  reflexivity.
Qed.

Lemma parsePrimitive_loop_S (fuel : nat) (data : Data) (i : Z) :
  _parsePrimitive_loop (S fuel) data i =
  if is_terminator (_get data i) then Some i
  else _parsePrimitive_loop fuel data (i + 1).
Proof. reflexivity. Qed.

Lemma parsePrimitive_loop_run (p : list Z) :
  Forall (fun x => is_terminator (JNum x) = false) p ->
  forall (data : Data) (i t : Z) (rest : list Z) (n : nat),
    suffix_at data i (p ++ t :: rest) ->
    is_terminator (JNum t) = true ->
    _parsePrimitive_loop (S (length p + n)) data i
    = Some (i + Z.of_nat (length p)).
Proof.
  induction 1 as [|x p Hx _ IH]; intros data i t rest n Hs Ht;
    cbn [app length Nat.add] in *; rewrite parsePrimitive_loop_S;
    rewrite (suffix_at_head _ _ _ _ Hs).
  - rewrite Ht. f_equal. lia.
  - rewrite Hx. apply suffix_at_tail in Hs.
    rewrite (IH data (i + 1) t rest n Hs Ht). f_equal. lia.
Qed.

Section Coverage.

Variable utf8Slice : list Z -> jsstring.

Lemma dispatch_whitespace (fuel : nat) data i s c :
  _get data i = JNum c -> whitespace c = true ->
  dispatch utf8Slice fuel data i s = Ret (i, s).
Proof.
  intros Hg Hc. unfold dispatch. rewrite Hg.
  apply whitespace_cases in Hc as [-> | [-> | [-> | ->]]]; reflexivity.
Qed.

Lemma write_loop_whitespace (ws : list Z) :
  Forall (fun c => whitespace c = true) ws ->
  forall data i rest s fuel,
    suffix_at data i (ws ++ rest) -> _skipped s = false ->
    write_loop utf8Slice (length ws + fuel) data i s
    = write_loop utf8Slice fuel data (i + Z.of_nat (length ws)) s.
Proof.
  induction 1 as [|c ws Hc _ IH]; intros data i rest s fuel Hs Hk;
    cbn [app length Nat.add] in *.
  - now rewrite Z.add_0_r.
  - pose proof (suffix_at_head _ _ _ _ Hs) as Hg.
    pose proof (get_num_range _ _ _ Hg) as Hr.
    rewrite write_loop_S by (assumption || lia).
    rewrite (dispatch_whitespace _ _ _ _ c Hg Hc). cbn [bind fst snd].
    apply suffix_at_tail in Hs. rewrite (IH data (i + 1) rest s fuel Hs Hk).
    f_equal. lia.
Qed.

(** X5. A document made of blanks only (space, tab, carriage return, line
    feed) is scanned without calling a listener or changing the scanner. *)
Theorem write_blank_document (data : Data) (s : FastJson) (fuel : nat) :
  Forall (fun c => whitespace c = true) (units data) ->
  _skipped s = false ->
  (length (units data) <= fuel)%nat ->
  write utf8Slice fuel data s = Ret s.
Proof.
  intros Hws Hk Hf. unfold write.
  replace fuel with (length (units data) + (fuel - length (units data)))%nat
    by lia.
  rewrite (write_loop_whitespace (units data) Hws data 0 [] s);
    [|split; [lia|now rewrite app_nil_r]|assumption].
  rewrite write_loop_exit.
  - cbn [bind]. now rewrite Hk.
  - unfold data_length. rewrite Z.add_0_l, Z.ltb_irrefl. reflexivity.
Qed.

(** X6. A closing delimiter or a comma met with an empty stack, after any
    blanks, makes [write] throw a [TypeError]. *)
Theorem write_stray_delimiter_throws
        (data : Data) (ws rest : list Z) (c : Z) (s : FastJson) (fuel : nat) :
  units data = ws ++ c :: rest ->
  Forall (fun x => whitespace x = true) ws ->
  c = CLOSE_BRACE \/ c = CLOSE_BRACKET \/ c = COMMA ->
  _stack s = [] -> _skipped s = false ->
  (S (length ws) <= fuel)%nat ->
  write utf8Slice fuel data s = TypeError.
Proof.
  intros Hu Hws Hc Hst Hk Hf. unfold write.
  replace fuel with (length ws + S (fuel - S (length ws)))%nat by lia.
  assert (Hs : suffix_at data 0 (ws ++ c :: rest))
    by (split; [lia|exact Hu]).
  rewrite (write_loop_whitespace ws Hws data 0 (c :: rest) s _ Hs Hk).
  apply suffix_at_app in Hs. pose proof (suffix_at_head _ _ _ _ Hs) as Hg.
  pose proof (get_num_range _ _ _ Hg) as Hr.
  rewrite write_loop_S by (assumption || lia).
  assert (Hd : forall f, dispatch utf8Slice f data (0 + Z.of_nat (length ws)) s
                         = TypeError).
  { intro f. unfold dispatch. rewrite Hg.
    destruct Hc as [-> | [-> | ->]]; cbn;
      unfold _onCloseBlock, _onComma; now rewrite Hst. }
  now rewrite Hd.
Qed.

(** X7. With an empty stack and the post-colon flag down, a quoted string or
    a terminated primitive met after any blanks makes [write] throw a
    [TypeError]: a document that is a single scalar is not scanned. *)
Theorem write_top_level_scalar_throws
        (data : Data) (ws token rest : list Z) (s : FastJson) :
  units data = ws ++ token ++ rest ->
  Forall (fun x => whitespace x = true) ws ->
  (exists body, token = QUOTE :: body ++ [QUOTE] /\ StrBody body)
  \/ (exists x p t rest', token = x :: p /\ rest = t :: rest' /\
        Forall (fun y => is_default (JNum y) = true) (x :: p) /\
        is_terminator (JNum t) = true) ->
  _stack s = [] -> _postColon s = false -> _skipped s = false ->
  exists fuel, forall fuel', (fuel <= fuel')%nat ->
    write utf8Slice fuel' data s = TypeError.
Proof.
  intros Hu Hws Htok Hst Hpc Hk.
  exists (length ws + S (S (length token)))%nat. intros fuel' Hf. unfold write.
  replace fuel' with (length ws + S (fuel' - S (length ws)))%nat by lia.
  assert (Hs : suffix_at data 0 (ws ++ token ++ rest))
    by (split; [lia|exact Hu]).
  rewrite (write_loop_whitespace ws Hws data 0 (token ++ rest) s _ Hs Hk).
  apply suffix_at_app in Hs.
  assert (Hemit : forall from to,
             _emitPrimitiveOrString utf8Slice data from to s = TypeError).
  { intros from to. unfold _emitPrimitiveOrString, _getFrame.
    now rewrite Hpc, Hst. }
  destruct Htok as [(body & -> & Hb)|(x & p & t & rest' & -> & -> & Hp & Ht)].
  - cbn [app] in Hs. rewrite <- app_assoc in Hs. cbn [app] in Hs.
    pose proof (suffix_at_head _ _ _ _ Hs) as Hg.
    pose proof (get_num_range _ _ _ Hg) as Hr.
    rewrite write_loop_S by (assumption || lia).
    rewrite dispatch_quote by assumption. unfold _onQuote, _parseString.
    apply suffix_at_tail in Hs.
    rewrite (parseString_loop_mono (S (length body + 0)) _ data _
               (0 + Z.of_nat (length ws) + 1 + Z.of_nat (length body)));
      [|now apply (parseString_loop_body body Hb data _ rest)
       |cbn [length] in Hf; rewrite length_app in Hf; cbn [length] in Hf; lia].
    cbn [lift bind]. now rewrite Hemit.
  - cbn [app] in Hs.
    pose proof (suffix_at_head _ _ _ _ Hs) as Hg.
    pose proof (get_num_range _ _ _ Hg) as Hr.
    rewrite write_loop_S by (assumption || lia).
    rewrite dispatch_default by (rewrite Hg; now inversion Hp).
    unfold _onPrimitive, _parsePrimitive.
    rewrite (parsePrimitive_loop_mono (S (length (x :: p) + 0)) _ data _
               (0 + Z.of_nat (length ws) + Z.of_nat (length (x :: p))));
      [| |lia].
    + cbn [lift bind]. now rewrite Hemit.
    + apply (parsePrimitive_loop_run (x :: p)) with (t := t) (rest := rest');
        [|exact Hs|exact Ht].
      eapply Forall_impl; [|exact Hp].
      intros y Hy. now apply is_default_not_terminator.
Qed.

Lemma slice_token (data : Data) (a b c : list Z) :
  units data = a ++ b ++ c ->
  slice data (Z.of_nat (length a)) (Z.of_nat (length a) + Z.of_nat (length b))
  = like data b.
Proof.
  intro Hu. destruct data as [l|l]; simpl in *; subst l;
    now rewrite js_slice_middle.
Qed.

Lemma toString_token (data : Data) (a b c : list Z) :
  units data = a ++ b ++ c ->
  _toString utf8Slice data (Some (Z.of_nat (length a)))
            (Some (Z.of_nat (length a) + Z.of_nat (length b)))
  = match data with Str _ => b | Buf _ => utf8Slice b end.
Proof.
  intro Hu. destruct data as [l|l]; simpl in *; subst l;
    now rewrite ?js_slice_middle, ?buf_range_middle.
Qed.

Lemma emit_scalar_listeners data from to s :
  _postColon s = true \/ _stack s <> [] ->
  _emitPrimitiveOrString utf8Slice data from to s
  = Ret (called (scalar_listeners utf8Slice data s) (slice data from to) s).
Proof.
  intro Hctx. unfold _emitPrimitiveOrString, _getFrame, scalar_listeners.
  destruct (_postColon s).
  - now rewrite emit_at_called.
  - destruct Hctx as [Hctx|Hctx]; [discriminate|].
    destruct (_stack s) as [|frame rest]; [now elim Hctx|]. cbn [hd_error].
    destruct (frame_type frame).
    + now rewrite emit_at_called.
    + now rewrite called_nil.
Qed.

Lemma dispatch_quoted_string
      (data : Data) (pre body post : list Z) (s : FastJson) (fuel : nat) :
  units data = pre ++ QUOTE :: body ++ QUOTE :: post ->
  StrBody body ->
  _postColon s = true \/ _stack s <> [] ->
  (S (length body) <= fuel)%nat ->
  dispatch utf8Slice fuel data (Z.of_nat (length pre)) s
  = Ret (Z.of_nat (length pre) + 1 + Z.of_nat (length body),
         set_lastString
           (mkSpan (Some (Z.of_nat (length pre) + 1))
                   (Some (Z.of_nat (length pre) + 1 + Z.of_nat (length body))))
           (set_postColon false
              (called (scalar_listeners utf8Slice data s) (like data body) s))).
Proof.
  intros Hu Hb Hctx Hf.
  pose proof (suffix_at_split _ _ _ Hu) as Hs.
  pose proof (suffix_at_head _ _ _ _ Hs) as Hg.
  assert (Hu' : units data = (pre ++ [QUOTE]) ++ body ++ QUOTE :: post)
    by (rewrite Hu, <- app_assoc; reflexivity).
  assert (Hlen : Z.of_nat (length (pre ++ [QUOTE])) = Z.of_nat (length pre) + 1)
    by (rewrite length_app; simpl; lia).
  assert (Hemit :
             _emitPrimitiveOrString utf8Slice data (Z.of_nat (length pre) + 1)
               (Z.of_nat (length pre) + 1 + Z.of_nat (length body)) s
             = Ret (called (scalar_listeners utf8Slice data s)
                           (like data body) s)).
  { pose proof (slice_token data _ _ _ Hu') as Hsl. rewrite Hlen in Hsl.
    rewrite emit_scalar_listeners by assumption. now rewrite Hsl. }
  rewrite dispatch_quote by assumption. unfold _onQuote, _parseString.
  apply suffix_at_tail in Hs.
  rewrite (parseString_loop_mono (S (length body + 0)) _ data _
             (Z.of_nat (length pre) + 1 + Z.of_nat (length body)));
    [|now apply (parseString_loop_body body Hb data _ post)|lia].
  cbn [lift bind]. rewrite Hemit. cbn [bind]. f_equal. f_equal. lia.
Qed.

(** X8. The iteration of [write] on a quoted string, after a colon or
    inside a container, ends on its closing quote and leaves the stack and
    the cursor as they were and the post-colon flag down.  It calls the
    listeners registered under the pending key (after a colon) or under the
    index of the element (in an array), and no other, each with the text
    between the quotes; that text, escapes undecoded, is the pending key
    afterwards. *)
Theorem quoted_string_pending_key
        (data : Data) (pre body post : list Z) (s : FastJson) :
  units data = pre ++ QUOTE :: body ++ QUOTE :: post ->
  StrBody body ->
  _postColon s = true \/ _stack s <> [] ->
  exists fuel, forall fuel', (fuel <= fuel')%nat ->
    exists s',
      dispatch utf8Slice fuel' data (Z.of_nat (length pre)) s
      = Ret (Z.of_nat (length pre) + 1 + Z.of_nat (length body), s') /\
      _postColon s' = false /\ _stack s' = _stack s /\
      _events s' = _events s /\
      _getKeyForPrimitiveObject utf8Slice data s'
      = match data with Str _ => body | Buf _ => utf8Slice body end /\
      _calls s' = _calls s
                  ++ fst (EventTree.invoke (scalar_listeners utf8Slice data s)
                                           (like data body) (_skipped s)).
Proof.
  intros Hu Hb Hctx. exists (S (length body)). intros fuel' Hf.
  pose proof (dispatch_quoted_string data pre body post s fuel' Hu Hb Hctx Hf)
    as Hd.
  eexists. split; [exact Hd|].
  split; [reflexivity|]. split; [reflexivity|]. split; [reflexivity|].
  split; [|reflexivity].
  assert (Hu' : units data = (pre ++ [QUOTE]) ++ body ++ QUOTE :: post)
    by (rewrite Hu, <- app_assoc; reflexivity).
  assert (Hlen : Z.of_nat (length (pre ++ [QUOTE])) = Z.of_nat (length pre) + 1)
    by (rewrite length_app; simpl; lia).
  unfold _getKeyForPrimitiveObject.
  cbn [_lastString set_lastString span_start span_end].
  rewrite <- Hlen. exact (toString_token data _ _ _ Hu').
Qed.

(** *** A single pass *)

(** X9. An iteration of the loop of [write] that returns ends at an offset
    that is not before the one it started at and is within the data: the
    scan never moves backwards nor past the end. *)
Theorem dispatch_progress (fuel : nat) data i s r :
  dispatch utf8Slice fuel data i s = Ret r ->
  i <= fst r < data_length data.
Proof.
  assert (Hhere : forall c, (_get data i === c) = true -> i <= i < data_length data).
  { intros c Hc. apply strict_eq_true in Hc. apply get_num_range in Hc. lia. }
  assert (Hany : forall a b c d,
             (_get data i === a) || (_get data i === b)
             || (_get data i === c) || (_get data i === d) = true ->
             i <= i < data_length data).
  { intros a b c d H.
    repeat (apply orb_true_iff in H; destruct H as [H|H]); eauto. }
  assert (Hopen : forall type o c,
             _onOpenBlock utf8Slice fuel data i type o c s = Ret r ->
             (_get data i === o) = true -> i <= fst r < data_length data).
  { intros type o c H Ho. unfold _onOpenBlock in H.
    destruct (negb _).
    - destruct (_skipBlock fuel data i o c) as [e|] eqn:E; [|discriminate].
      injection H as <-. unfold _skipBlock in E.
      apply skipBlock_loop_sound in E as [Hr Hc]; [|lia].
      apply get_num_range in Hc. simpl. lia.
    - injection H as <-. simpl. eauto. }
  unfold dispatch.
  destruct (_get data i === OPEN_BRACE) eqn:E1; [eauto|].
  destruct (_get data i === OPEN_BRACKET) eqn:E2; [eauto|].
  destruct ((_get data i === CLOSE_BRACE) || (_get data i === CLOSE_BRACKET))
           eqn:E3.
  { destruct (_onCloseBlock data i s); [|discriminate..].
    intros [= <-]. simpl.
    apply orb_true_iff in E3 as [E3|E3]; eauto. }
  destruct (_get data i === QUOTE) eqn:E4.
  { unfold _onQuote, _parseString.
    destruct (_parseString_loop fuel data (i + 1)) as [e|] eqn:E; [|discriminate].
    cbn [lift bind]. destruct (_emitPrimitiveOrString _ _ _ _ _); [|discriminate..].
    intros [= <-]. simpl. apply parseString_loop_ge in E as [He Hq].
    apply get_num_range in Hq. lia. }
  destruct ((_get data i === TAB) || (_get data i === CARRIAGE_RETURN)
            || (_get data i === NEW_LINE) || (_get data i === SPACE)) eqn:E5.
  { intros [= <-]. simpl. eauto. }
  destruct (_get data i === COLON) eqn:E6; [intros [= <-]; simpl; eauto|].
  destruct (_get data i === COMMA) eqn:E7.
  { destruct (_onComma s); [|discriminate..]. intros [= <-]. simpl. eauto. }
  unfold _onPrimitive, _parsePrimitive.
  destruct (_parsePrimitive_loop fuel data i) as [e|] eqn:E; [|discriminate].
  cbn [lift bind]. destruct (_emitPrimitiveOrString _ _ _ _ _); [|discriminate..].
  intros [= <-]. simpl.
  apply parsePrimitive_loop_sound in E as (He & Ht & _).
  assert (e <> i).
  { intros ->. unfold is_terminator in Ht.
    apply orb_false_elim in E3 as [E3 E3'].
    repeat (apply orb_false_elim in E5; destruct E5 as [E5 ?]).
    repeat match goal with X : (_ === _) = false |- _ => rewrite X in Ht; clear X end.
    discriminate. }
  assert (e < data_length data).
  { destruct (Z.lt_ge_cases e (data_length data)); [assumption|].
    rewrite is_terminator_out_of_range in Ht by assumption. discriminate. }
  lia.
Qed.

(** *** Fuel proportional to the data *)







(** *** Containers whose tokens are well nested *)

Lemma reaches_one (fuel : nat) data i s r :
  i < data_length data -> _skipped s = false ->
  dispatch utf8Slice fuel data i s = Ret r ->
  reaches utf8Slice data i s (fst r + 1) (snd r).
Proof. intros Hi Hk Hd. eapply reaches_next; eauto. apply reaches_here. Qed.

Lemma reaches_trans data i s j t k u :
  reaches utf8Slice data i s j t -> reaches utf8Slice data j t k u ->
  reaches utf8Slice data i s k u.
Proof.
  induction 1 as [|i s fuel r j t Hi Hk Hd _ IH]; [trivial|].
  intro H. eapply reaches_next; eauto.
Qed.

Lemma reaches_calls data i s i' s' :
  reaches utf8Slice data i s i' s' ->
  exists more, _calls s' = _calls s ++ more.
Proof.
  induction 1 as [|i s fuel r i' s' _ _ Hd _ (more & IH)].
  - exists []. now rewrite app_nil_r.
  - destruct (dispatch_called utf8Slice fuel data i s r Hd)
      as (ls & value & s1 & Hc1 & _ & Hc & _).
    unfold called in Hc. simpl in Hc. rewrite Hc1 in Hc.
    eexists. rewrite IH, Hc, <- app_assoc. reflexivity.
Qed.

Lemma reset_down key e :
  EventTree.reset (EventTree.down key e) = EventTree.reset e.
Proof. reflexivity. Qed.




Lemma reaches_returns data i s i' s' :
  reaches utf8Slice data i s i' s' ->
  (forall f, write_loop utf8Slice f data i' s' = Ret s') ->
  exists fuel, forall fuel', (fuel <= fuel')%nat ->
    write_loop utf8Slice fuel' data i s = Ret s'.
Proof.
  induction 1 as [|i s fuel r i' s' Hi Hk Hd _ IH]; intro Hend.
  - exists O. intros. apply Hend.
  - destruct (IH Hend) as (F & HF). exists (S (Nat.max fuel F)).
    intros [|fuel'] Hle; [lia|].
    rewrite write_loop_S by assumption.
    rewrite (dispatch_mono utf8Slice fuel fuel'), Hd by (lia || congruence).
    cbn [bind]. apply HF. lia.
Qed.

Lemma reaches_whitespace (ws : list Z) :
  Forall (fun c => whitespace c = true) ws ->
  forall data i rest s,
    suffix_at data i (ws ++ rest) -> _skipped s = false ->
    reaches utf8Slice data i s (i + Z.of_nat (length ws)) s.
Proof.
  induction 1 as [|c ws Hc _ IH]; intros data i rest s Hs Hk;
    cbn [app length] in *.
  - rewrite Z.add_0_r. apply reaches_here.
  - pose proof (suffix_at_head _ _ _ _ Hs) as Hg.
    pose proof (get_num_range _ _ _ Hg) as Hr.
    eapply (reaches_next utf8Slice data i s O (i, s));
      [lia|assumption|now apply (dispatch_whitespace _ _ _ _ c)|].
    cbn [fst snd]. apply suffix_at_tail in Hs.
    replace (i + Z.of_nat (S (length ws)))
      with (i + 1 + Z.of_nat (length ws)) by lia.
    now apply (IH data (i + 1) rest).
Qed.

Lemma suffix_at_units (data : Data) (i : Z) (l : list Z) :
  suffix_at data i l -> l <> [] ->
  exists pre, units data = pre ++ l /\ Z.of_nat (length pre) = i.
Proof.
  intros [Hi H] Hl. exists (firstn (Z.to_nat i) (units data)). split.
  - rewrite <- H. symmetry. apply firstn_skipn.
  - rewrite length_firstn.
    destruct (Nat.le_gt_cases (Z.to_nat i) (length (units data))); [lia|].
    rewrite skipn_all2 in H by lia. now elim Hl.
Qed.

Lemma Balanced_app (o c : Z) (a b : list Z) :
  Balanced o c a -> Balanced o c b -> Balanced o c (a ++ b).
Proof.
  induction 1 as [|x l Hq Ho Hc _ IH|body l Hb _ IH|inner l Hi _ _ IH];
    intro Hb'; cbn [app].
  - assumption.
  - apply Balanced_char; auto.
  - rewrite <- app_assoc. cbn [app]. apply Balanced_string; auto.
  - rewrite <- app_assoc. cbn [app]. apply Balanced_block; auto.
Qed.

Lemma separator_cases (c : Z) :
  separator c = true ->
  whitespace c = true \/ c = COLON \/ c = COMMA.
Proof.
  unfold separator. intro H.
  apply orb_true_iff in H as [H|H]; [|apply Z.eqb_eq in H; auto].
  apply orb_true_iff in H as [H|H]; [auto|apply Z.eqb_eq in H; auto].
Qed.

Lemma separator_plain (c : Z) :
  separator c = true ->
  c <> QUOTE /\ c <> OPEN_BRACE /\ c <> CLOSE_BRACE /\
  c <> OPEN_BRACKET /\ c <> CLOSE_BRACKET.
Proof.
  intro H. apply separator_cases in H as [H|[->| ->]];
    [apply whitespace_cases in H as [-> | [-> | [-> | ->]]]| |];
    repeat split; discriminate.
Qed.

Lemma is_default_plain (x : Z) :
  is_default (JNum x) = true ->
  x <> QUOTE /\ x <> OPEN_BRACE /\ x <> CLOSE_BRACE /\
  x <> OPEN_BRACKET /\ x <> CLOSE_BRACKET.
Proof.
  unfold is_default. intro H. apply negb_true_iff in H.
  repeat (apply orb_false_elim in H; destruct H as [H ?]).
  repeat match goal with
         | E : (JNum _ === _) = false |- _ =>
             rewrite strict_eq_num in E; apply Z.eqb_neq in E
         end.
  repeat split; assumption.
Qed.

Lemma delimiters_plain (o c : Z) :
  delimiters o c -> o <> QUOTE /\ c <> QUOTE /\ o <> c.
Proof. intros [[-> ->]|[-> ->]]; repeat split; discriminate. Qed.

Lemma Nested_balanced (l : list Z) :
  Nested l -> forall o c, delimiters o c -> Balanced o c l.
Proof.
  induction 1 as [|x l Hx _ IH|body l Hb _ IH|p l _ Hp _ _ IH
                  |o' c' inner l Hd' _ IHi _ IHl]; intros o c Hd.
  - constructor.
  - pose proof (separator_plain x Hx) as (H1 & H2 & H3 & H4 & H5).
    apply Balanced_char; auto; destruct Hd as [[-> ->]|[-> ->]]; assumption.
  - apply Balanced_string; auto.
  - induction Hp as [|x p Hx _ IHp]; cbn [app]; [auto|].
    pose proof (is_default_plain x Hx) as (H1 & H2 & H3 & H4 & H5).
    apply Balanced_char; auto; destruct Hd as [[-> ->]|[-> ->]]; assumption.
  - destruct Hd as [[-> ->]|[-> ->]], Hd' as [[-> ->]|[-> ->]].
    + apply Balanced_block; [apply IHi|apply IHl]; left; now split.
    + apply Balanced_char; try discriminate.
      apply Balanced_app; [apply IHi; left; now split|].
      apply Balanced_char; try discriminate. apply IHl. left. now split.
    + apply Balanced_char; try discriminate.
      apply Balanced_app; [apply IHi; right; now split|].
      apply Balanced_char; try discriminate. apply IHl. right. now split.
    + apply Balanced_block; [apply IHi|apply IHl]; right; now split.
Qed.

Lemma dispatch_open (fuel : nat) data i s o c :
  delimiters o c -> _get data i = JNum o ->
  dispatch utf8Slice fuel data i s
  = _onOpenBlock utf8Slice fuel data i
                 (if o =? OPEN_BRACE then TYPE_OBJECT else TYPE_ARRAY) o c s.
Proof.
  intros [[-> ->]|[-> ->]] Hg; unfold dispatch; rewrite Hg; reflexivity.
Qed.

Lemma dispatch_close (fuel : nat) data i s o c :
  delimiters o c -> _get data i = JNum c ->
  dispatch utf8Slice fuel data i s
  = (s' <- _onCloseBlock data i s ;; Ret (i, s')).
Proof.
  intros [[-> ->]|[-> ->]] Hg; unfold dispatch; rewrite Hg; reflexivity.
Qed.

Lemma bump_0 (st : list Frame) : bump 0 st = st.
Proof.
  destruct st as [|[ty st0 k ix] r]; [reflexivity|].
  destruct ty; cbn; try reflexivity. now rewrite Z.add_0_r.
Qed.

Lemma bump_add (a b : Z) (st : list Frame) :
  bump b (bump a st) = bump (a + b) st.
Proof.
  destruct st as [|[ty st0 k ix] r]; [reflexivity|].
  destruct ty; cbn; try reflexivity. now rewrite Z.add_assoc.
Qed.

Lemma bump_cons (n : Z) (f : Frame) (r : list Frame) :
  exists f',
    bump n (f :: r) = f' :: r /\ frame_type f' = frame_type f /\
    frame_start f' = frame_start f /\ frame_key f' = frame_key f.
Proof.
  unfold bump. destruct (frame_type f) eqn:E; eexists;
    (split; [reflexivity|]); cbn; rewrite ?E; auto.
Qed.

Lemma bump_nonempty (n : Z) (st : list Frame) : st <> [] -> bump n st <> [].
Proof.
  destruct st as [|f r]; [congruence|]. intros _.
  destruct (bump_cons n f r) as (f' & -> & _). discriminate.
Qed.

Lemma same_frames_bump (n : Z) (st : list Frame) :
  st <> [] -> same_frames st (bump n st).
Proof.
  destruct st as [|f r]; [congruence|]. intros _.
  destruct (bump_cons n f r) as (f' & E & H1 & H2 & H3).
  exists f, f', r. rewrite E. auto.
Qed.

Lemma Counted_nested (rest l : list Z) (n : Z) : Counted rest l n -> Nested l.
Proof.
  induction 1 as [rest|rest c l n Hc _ IH|rest body l n Hb _ IH
                  |rest p l n Hp Hd Ht _ IH|rest o c inner m l n Hd _ IHi _ IHl].
  - constructor.
  - now apply Nested_separator.
  - now apply Nested_string.
  - apply Nested_primitive; try assumption.
    destruct l as [|t l]; [exact I|exact Ht].
  - now apply Nested_block.
Qed.

Lemma Nested_counted (l : list Z) :
  Nested l -> forall rest, ends_token rest -> exists n, Counted rest l n.
Proof.
  induction 1 as [|c l Hc _ IH|body l Hb _ IH|p l Hp Hd Ht _ IH
                  |o c inner l Hd _ IHi _ IHl]; intros rest Hr.
  - exists 0. constructor.
  - destruct (IH rest Hr) as (n & Hn). eexists.
    apply Counted_separator; eauto.
  - destruct (IH rest Hr) as (n & Hn). exists n. now apply Counted_string.
  - destruct (IH rest Hr) as (n & Hn). exists n.
    apply Counted_primitive; try assumption.
    destruct l as [|t l]; [exact Hr|exact Ht].
  - destruct (IHl rest Hr) as (n & Hn).
    destruct (IHi (c :: l ++ rest)) as (m & Hm).
    { destruct Hd as [[_ ->]|[_ ->]]; reflexivity. }
    exists n. now apply (Counted_block rest o c inner m l n).
Qed.

Lemma dispatch_separator (fuel : nat) data i s c :
  _get data i = JNum c -> separator c = true -> _stack s <> [] ->
  exists s1,
    dispatch utf8Slice fuel data i s = Ret (i, s1) /\
    _stack s1 = bump (if c =? COMMA then 1 else 0) (_stack s) /\
    _events s1 = _events s /\ _skipped s1 = _skipped s.
Proof.
  intros Hg Hc Hst. apply separator_cases in Hc as [Hc|[-> | ->]].
  - exists s. rewrite (dispatch_whitespace _ _ _ _ c Hg Hc).
    assert (E : (c =? COMMA) = false)
      by (apply whitespace_cases in Hc as [-> | [-> | [-> | ->]]]; reflexivity).
    rewrite E, bump_0. auto.
  - exists (set_postColon true s).
    split; [unfold dispatch; rewrite Hg; reflexivity|].
    split; [symmetry; apply bump_0|]. split; reflexivity.
  - assert (E : dispatch utf8Slice fuel data i s
                = (s' <- _onComma s ;; Ret (i, s')))
      by (unfold dispatch; rewrite Hg; reflexivity).
    rewrite E, Z.eqb_refl. unfold _onComma, bump.
    destruct (_stack s) as [|f r] eqn:Est; [now elim Hst|].
    destruct (frame_type f) eqn:Ety; cbn [bind]; eexists;
      (split; [reflexivity|]); cbn [_stack _events _skipped set_stack];
      rewrite ?Est; (split; [|split; reflexivity]); reflexivity.
Qed.

Lemma dispatch_primitive_token data i x (p : list Z) t rest s (fuel : nat) :
  suffix_at data i ((x :: p) ++ t :: rest) ->
  is_default (JNum x) = true ->
  Forall (fun y => is_terminator (JNum y) = false) p ->
  is_terminator (JNum t) = true ->
  _postColon s = true \/ _stack s <> [] ->
  (S (length (x :: p)) <= fuel)%nat ->
  dispatch utf8Slice fuel data i s
  = Ret (i + Z.of_nat (length p),
         set_postColon false
           (called (scalar_listeners utf8Slice data s)
                   (slice data i (i + Z.of_nat (length (x :: p)))) s)).
Proof.
  intros Hs Hx Hp Ht Hctx Hf.
  pose proof (suffix_at_head _ _ _ _ Hs) as Hg.
  rewrite dispatch_default by (now rewrite Hg).
  unfold _onPrimitive, _parsePrimitive.
  rewrite (parsePrimitive_loop_mono (S (length (x :: p) + 0)) fuel data i
             (i + Z.of_nat (length (x :: p)))); [| |lia].
  - cbn [lift bind]. rewrite emit_scalar_listeners by assumption.
    cbn [bind]. f_equal. f_equal. cbn [length]. lia.
  - apply (parsePrimitive_loop_run (x :: p)) with (t := t) (rest := rest);
      [|exact Hs|exact Ht].
    constructor; [now apply is_default_not_terminator|exact Hp].
Qed.

Lemma scan_continue data i s i1 s1 target (a b : Z) :
  reaches utf8Slice data i s i1 s1 ->
  _stack s1 = bump a (_stack s) -> _events s1 = _events s ->
  (_skipped s1 = false ->
   exists i' s',
     reaches utf8Slice data i1 s1 i' s' /\
     (_skipped s' = true \/
      (i' = target /\ _skipped s' = false /\
       _stack s' = bump b (_stack s1) /\ _events s' = _events s1))) ->
  exists i' s',
    reaches utf8Slice data i s i' s' /\
    (_skipped s' = true \/
     (i' = target /\ _skipped s' = false /\
      _stack s' = bump (a + b) (_stack s) /\ _events s' = _events s)).
Proof.
  intros R Hsf Hev Hcont. destruct (_skipped s1) eqn:Hk1.
  - exists i1, s1. auto.
  - destruct (Hcont eq_refl) as (i' & s' & R' & H'). exists i', s'.
    split; [eapply reaches_trans; eauto|].
    destruct H' as [H'|(-> & Hk' & Hsf' & Hev')]; [now left|right].
    repeat split; [assumption| |congruence].
    rewrite Hsf', Hsf. apply bump_add.
Qed.

(** The scan of well-nested tokens below a frame comes to their end with the
    same cursor and the same frames, the index of an array frame having
    grown by the number of commas, unless a listener has called [skip()] on
    the way. *)
Lemma scan_counted (rest items : list Z) (n : Z) :
  Counted rest items n ->
  forall data i s,
    suffix_at data i (items ++ rest) ->
    _stack s <> [] -> _skipped s = false ->
    exists i' s',
      reaches utf8Slice data i s i' s' /\
      (_skipped s' = true \/
       (i' = i + Z.of_nat (length items) /\ _skipped s' = false /\
        _stack s' = bump n (_stack s) /\ _events s' = _events s)).
Proof.
  induction 1 as [rest|rest c l n Hc _ IH|rest body l n Hb _ IH
                  |rest p l n Hp Hd Ht _ IH
                  |rest o c inner m l n Hd Hin IHi _ IHl];
    intros data i s Hs Hst Hk.
  - exists i, s. split; [apply reaches_here|]. right. cbn [length].
    rewrite Z.add_0_r, bump_0. auto.
  - cbn [app] in Hs. pose proof (suffix_at_head _ _ _ _ Hs) as Hg.
    pose proof (get_num_range _ _ _ Hg) as Hr.
    destruct (dispatch_separator O data i s c Hg Hc Hst)
      as (s1 & Hd1 & Hsf & Hev & Hk1).
    pose proof (reaches_one _ _ _ _ _ (proj2 Hr) Hk Hd1) as R.
    cbn [fst snd] in R.
    apply (scan_continue data i s _ s1 _ _ n R Hsf Hev). intro Hk1'.
    replace (i + Z.of_nat (length (c :: l)))
      with (i + 1 + Z.of_nat (length l)) by (cbn [length]; lia).
    apply suffix_at_tail in Hs.
    apply (IH data (i + 1) s1 Hs); [|assumption].
    rewrite Hsf. now apply bump_nonempty.
  - cbn [app] in Hs. rewrite <- app_assoc in Hs. cbn [app] in Hs.
    pose proof (suffix_at_head _ _ _ _ Hs) as Hg.
    pose proof (get_num_range _ _ _ Hg) as Hr.
    destruct (suffix_at_units _ _ _ Hs ltac:(discriminate)) as (pre & Hu & Hlen).
    pose proof (dispatch_quoted_string data pre body (l ++ rest) s
                  (S (length body)) Hu Hb (or_intror Hst) (le_n _)) as Hd1.
    rewrite Hlen in Hd1.
    pose proof (reaches_one _ _ _ _ _ (proj2 Hr) Hk Hd1) as R.
    cbn [fst snd] in R.
    apply (scan_continue data i s _ _ _ 0 n R);
      [symmetry; apply bump_0|reflexivity|]. intro Hk1.
    replace (i + Z.of_nat (length (QUOTE :: body ++ QUOTE :: l)))
      with (i + 1 + Z.of_nat (length body) + 1 + Z.of_nat (length l))
      by (cbn [length]; rewrite length_app; cbn [length]; lia).
    apply suffix_at_tail, suffix_at_app, suffix_at_tail in Hs.
    apply (IH data _ _ Hs); [exact Hst|exact Hk1].
  - rewrite <- app_assoc in Hs.
    assert (Htail : exists t rest', l ++ rest = t :: rest' /\
                                    is_terminator (JNum t) = true).
    { revert Ht. destruct (l ++ rest) as [|t rest']; intro Ht;
        [now elim Ht|eauto]. }
    destruct Htail as (t & rest' & Htail & Hterm). rewrite Htail in Hs.
    destruct p as [|x p]; [now elim Hp|].
    apply Forall_cons_iff in Hd as [Hx Hd].
    assert (Hd' : Forall (fun y => is_terminator (JNum y) = false) p).
    { eapply Forall_impl; [|exact Hd].
      intros y Hy. now apply is_default_not_terminator. }
    pose proof (dispatch_primitive_token data i x p t rest' s
                  (S (length (x :: p))) Hs Hx Hd' Hterm (or_intror Hst)
                  (le_n _)) as Hd1.
    assert (Hr : i < data_length data).
    { pose proof (suffix_at_head _ _ _ _ Hs) as Hg.
      apply get_num_range in Hg. lia. }
    pose proof (reaches_one _ _ _ _ _ Hr Hk Hd1) as R. cbn [fst snd] in R.
    apply (scan_continue data i s _ _ _ 0 n R);
      [symmetry; apply bump_0|reflexivity|]. intro Hk1.
    replace (i + Z.of_nat (length ((x :: p) ++ l)))
      with (i + Z.of_nat (length p) + 1 + Z.of_nat (length l))
      by (rewrite length_app; cbn [length]; lia).
    rewrite <- Htail in Hs. apply suffix_at_app in Hs.
    replace (i + Z.of_nat (length p) + 1)
      with (i + Z.of_nat (length (x :: p))) by (cbn [length]; lia).
    apply (IH data _ _ Hs); [exact Hst|exact Hk1].
  - cbn [app] in Hs. rewrite <- app_assoc in Hs. cbn [app] in Hs.
    pose proof (suffix_at_head _ _ _ _ Hs) as Hg.
    pose proof (get_num_range _ _ _ Hg) as Hr.
    pose proof (delimiters_plain _ _ Hd) as (Hoq & Hcq & Hoc).
    pose proof (Counted_nested _ _ _ Hin) as Hin'.
    assert (Hlen' : i + Z.of_nat (length (o :: inner ++ c :: l))
                    = i + 1 + Z.of_nat (length inner) + 1 + Z.of_nat (length l))
      by (cbn [length]; rewrite length_app; cbn [length]; lia).
    rewrite Hlen'.
    destruct (EventTree.hasNode (_getKey utf8Slice data s) (_events s)) eqn:En.
    + (* the container is accepted *)
      assert (Hd1 : exists s1,
                 dispatch utf8Slice O data i s = Ret (i, s1) /\
                 _skipped s1 = false /\
                 (exists f, _stack s1 = f :: _stack s) /\
                 _events s1 = EventTree.down (_getKey utf8Slice data s) (_events s)).
      { rewrite (dispatch_open _ _ _ _ o c Hd Hg). unfold _onOpenBlock.
        rewrite En. cbn [negb]. eexists. split; [reflexivity|].
        split; [exact Hk|]. split; [eexists|]; reflexivity. }
      destruct Hd1 as (s1 & Hd1 & Hk1 & (f & Hst1) & Hev1).
      pose proof (reaches_one _ _ _ _ _ (proj2 Hr) Hk Hd1) as R1.
      cbn [fst snd] in R1.
      pose proof Hs as Hs1. apply suffix_at_tail in Hs1.
      destruct (IHi data (i + 1) s1 Hs1
                    ltac:(rewrite Hst1; discriminate) Hk1)
        as (i2 & s2 & R2 & H2).
      destruct H2 as [H2|(-> & Hk2 & E2 & Hev2)].
      { exists i2, s2. split; [eapply reaches_trans; eauto|now left]. }
      rewrite Hst1 in E2.
      destruct (bump_cons m f (_stack s)) as (g' & Eb & _). rewrite Eb in E2.
      pose proof Hs1 as Hs2. apply suffix_at_app in Hs2.
      pose proof (suffix_at_head _ _ _ _ Hs2) as Hg2.
      pose proof (get_num_range _ _ _ Hg2) as Hr2.
      assert (Hd3 : exists s3,
                 dispatch utf8Slice O data (i + 1 + Z.of_nat (length inner)) s2
                 = Ret (i + 1 + Z.of_nat (length inner), s3) /\
                 _stack s3 = _stack s /\ _events s3 = _events s).
      { rewrite (dispatch_close _ _ _ _ o c Hd Hg2). unfold _onCloseBlock.
        rewrite E2. cbv zeta. rewrite emit_if_listener. cbn [bind].
        eexists. split; [reflexivity|]. split; [reflexivity|].
        cbn [_events set_events called set_stack].
        rewrite Hev2, Hev1. apply up_down. }
      destruct Hd3 as (s3 & Hd3 & Hst3 & Hev3).
      pose proof (reaches_one _ _ _ _ _ (proj2 Hr2) Hk2 Hd3) as R3.
      cbn [fst snd] in R3.
      apply (scan_continue data i s _ s3 _ 0 n
               (reaches_trans _ _ _ _ _ _ _ R1
                  (reaches_trans _ _ _ _ _ _ _ R2 R3)));
        [rewrite Hst3; symmetry; apply bump_0|assumption|]. intro Hk3.
      apply suffix_at_tail in Hs2.
      apply (IHl data _ s3 Hs2); [now rewrite Hst3|exact Hk3].
    + (* the container is skipped *)
      destruct (suffix_at_units _ _ _ Hs ltac:(discriminate))
        as (pre & Hu & Hlen).
      assert (Hd1 : dispatch utf8Slice (S (length inner)) data i s
                    = Ret (i + 1 + Z.of_nat (length inner), s)).
      { rewrite (dispatch_open _ _ _ _ o c Hd Hg). unfold _onOpenBlock.
        rewrite En. cbn [negb]. rewrite <- Hlen.
        rewrite (skipBlock_balanced o c data pre inner (l ++ rest));
          [reflexivity|auto using Nested_balanced..]. }
      pose proof (reaches_one _ _ _ _ _ (proj2 Hr) Hk Hd1) as R.
      cbn [fst snd] in R.
      apply (scan_continue data i s _ s _ 0 n R);
        [symmetry; apply bump_0|reflexivity|]. intros _.
      apply suffix_at_tail, suffix_at_app, suffix_at_tail in Hs.
      apply (IHl data _ s Hs); assumption.
Qed.

Lemma scan_nested (items : list Z) :
  Nested items ->
  forall data i closer rest s,
    suffix_at data i (items ++ closer :: rest) ->
    is_terminator (JNum closer) = true ->
    _stack s <> [] -> _skipped s = false ->
    exists i' s',
      reaches utf8Slice data i s i' s' /\
      (_skipped s' = true \/
       (i' = i + Z.of_nat (length items) /\ _skipped s' = false /\
        same_frames (_stack s) (_stack s') /\ _events s' = _events s)).
Proof.
  intros Hn data i closer rest s Hs Hcl Hst Hk.
  destruct (Nested_counted items Hn (closer :: rest) Hcl) as (n & Hc).
  destruct (scan_counted _ _ _ Hc data i s Hs Hst Hk) as (i' & s' & R & H).
  exists i', s'. split; [exact R|].
  destruct H as [H|(-> & Hk' & Hsf & Hev)]; [now left|right].
  repeat split; try assumption. rewrite Hsf. now apply same_frames_bump.
Qed.

(** X13. Inside a container, the scan of well-nested tokens comes to their
    end with the cursor where it was, unless a listener calls [skip()] on
    the way.  In an array the index of the frame has then grown by the
    number of commas at the level of the array, whatever the elements were
    and whether they were entered or skipped, and the key of the next
    element is that index written in decimal; in an object the frame is
    unchanged. *)
Theorem element_index_counts_commas
        (rest items : list Z) (n : Z) (data : Data) (i : Z) (s : FastJson)
        (frame : Frame) (below : list Frame) :
  Counted rest items n ->
  suffix_at data i (items ++ rest) ->
  _stack s = frame :: below -> _skipped s = false ->
  exists i' s',
    reaches utf8Slice data i s i' s' /\
    (_skipped s' = true \/
     (i' = i + Z.of_nat (length items) /\ _events s' = _events s /\
      match frame_type frame with
      | TYPE_ARRAY =>
          _stack s' = mkFrame TYPE_ARRAY (frame_start frame) (frame_key frame)
                              (frame_index frame + n) :: below /\
          _getKey utf8Slice data s'
          = codes (NilZero.string_of_int (Z.to_int (frame_index frame + n)))
      | TYPE_OBJECT => _stack s' = frame :: below
      end)).
Proof.
  intros Hc Hs Hst Hk.
  destruct (scan_counted _ _ _ Hc data i s Hs
              ltac:(rewrite Hst; discriminate) Hk) as (i' & s' & R & H).
  exists i', s'. split; [exact R|].
  destruct H as [H|(-> & _ & Hsf & Hev)]; [now left|right].
  split; [reflexivity|]. split; [exact Hev|].
  rewrite Hst in Hsf. unfold bump in Hsf.
  destruct (frame_type frame) eqn:Ety; [|exact Hsf].
  split; [exact Hsf|]. unfold _getKey. rewrite Hsf. reflexivity.
Qed.

(** X14. The iteration of [write] on a primitive, after a colon or inside a
    container, ends on the last character before the terminator and leaves
    the stack, the cursor and the pending string as they were and the
    post-colon flag down.  It calls the listeners registered under the
    pending key (after a colon) or under the index of the element (in an
    array), and no other, each with the token verbatim. *)
Theorem primitive_token_listeners
        (data : Data) (pre : list Z) (x : Z) (p : list Z) (t : Z)
        (post : list Z) (s : FastJson) :
  units data = pre ++ (x :: p) ++ t :: post ->
  is_default (JNum x) = true ->
  Forall (fun y => is_terminator (JNum y) = false) p ->
  is_terminator (JNum t) = true ->
  _postColon s = true \/ _stack s <> [] ->
  exists fuel, forall fuel', (fuel <= fuel')%nat ->
    dispatch utf8Slice fuel' data (Z.of_nat (length pre)) s
    = Ret (Z.of_nat (length pre) + Z.of_nat (length p),
           set_postColon false
             (called (scalar_listeners utf8Slice data s)
                     (like data (x :: p)) s)).
Proof.
  intros Hu Hx Hp Ht Hctx. exists (S (length (x :: p))). intros fuel' Hf.
  rewrite (dispatch_primitive_token data _ x p t post s fuel'
             (suffix_at_split _ _ _ Hu) Hx Hp Ht Hctx Hf).
  now rewrite (slice_token data pre (x :: p) (t :: post) Hu).
Qed.


Lemma listeners_down (key : jsstring) (e : EventTree.t) :
  EventTree.hasNode key e = true ->
  EventTree.listeners (EventTree.node (EventTree.down key e))
  = listeners_at key e.
Proof.
  unfold EventTree.hasNode, EventTree.down, listeners_at. simpl.
  now destruct (EventTree.getChild _ key).
Qed.

Lemma listeners_at_none (key : jsstring) (e : EventTree.t) :
  EventTree.hasNode key e = false -> listeners_at key e = [].
Proof.
  unfold EventTree.hasNode, listeners_at.
  now destruct (EventTree.getChild _ key).
Qed.

(** The scan of a document that is a well-nested container, between
    blanks. *)
Lemma scan_container (data : Data) (ws1 inner ws2 : list Z) (o c : Z)
      (s : FastJson) :
  units data = ws1 ++ (o :: inner ++ [c]) ++ ws2 ->
  Forall (fun x => whitespace x = true) ws1 ->
  Forall (fun x => whitespace x = true) ws2 ->
  delimiters o c -> Nested inner ->
  _stack s = [] -> _skipped s = false ->
  exists i1 s1,
    reaches utf8Slice data 0 s i1 s1 /\
    (forall f, write_loop utf8Slice f data i1 s1 = Ret s1) /\
    (_skipped s1 = true \/
     (_skipped s1 = false /\ _stack s1 = [] /\ _events s1 = _events s /\
      exists before,
        _calls s1
        = _calls s ++ before
                  ++ fst (EventTree.invoke (listeners_at ROOT_KEY (_events s))
                                           (like data (o :: inner ++ [c]))
                                           false))).
Proof.
  intros Hu Hws1 Hws2 Hd Hin Hst Hk.
  assert (Hlen : data_length data
                 = Z.of_nat (length ws1) + 1 + Z.of_nat (length inner) + 1
                   + Z.of_nat (length ws2)).
  { unfold data_length. rewrite Hu, !length_app. cbn [length].
    rewrite length_app. cbn [length]. lia. }
  assert (Hs0 : suffix_at data 0 (ws1 ++ o :: inner ++ c :: ws2)).
  { split; [lia|]. rewrite Hu. cbn [app]. now rewrite <- app_assoc. }
  pose proof (reaches_whitespace ws1 Hws1 data 0 _ s Hs0 Hk) as R0.
  rewrite Z.add_0_l in R0.
  pose proof (suffix_at_app _ _ _ _ Hs0) as Hs. rewrite Z.add_0_l in Hs.
  pose proof (suffix_at_head _ _ _ _ Hs) as Hg.
  pose proof (get_num_range _ _ _ Hg) as Hr.
  assert (Hkey : _getKey utf8Slice data s = ROOT_KEY)
    by (unfold _getKey; now rewrite Hst).
  assert (Hend : forall t, _skipped t = false ->
             suffix_at data (Z.of_nat (length ws1) + 1
                             + Z.of_nat (length inner) + 1) ws2 ->
             exists i1,
               reaches utf8Slice data
                 (Z.of_nat (length ws1) + 1 + Z.of_nat (length inner) + 1) t
                 i1 t /\
               forall f, write_loop utf8Slice f data i1 t = Ret t).
  { intros t Ht Hs2. eexists. split.
    - apply (reaches_whitespace ws2 Hws2 data _ [] t);
        [now rewrite app_nil_r|assumption].
    - intro f. apply write_loop_exit. rewrite Hlen, Z.ltb_irrefl. reflexivity. }
  pose proof Hs as Hs2.
  apply suffix_at_tail, suffix_at_app, suffix_at_tail in Hs2.
  destruct (EventTree.hasNode ROOT_KEY (_events s)) eqn:En.
  - (* the root is registered *)
    assert (Hd1 : exists s1,
               dispatch utf8Slice O data (Z.of_nat (length ws1)) s
               = Ret (Z.of_nat (length ws1), s1) /\
               _skipped s1 = false /\ _calls s1 = _calls s /\
               (exists f, _stack s1 = [f] /\
                          frame_start f = Z.of_nat (length ws1)) /\
               _events s1 = EventTree.down ROOT_KEY (_events s)).
    { rewrite (dispatch_open _ _ _ _ o c Hd Hg). unfold _onOpenBlock.
      rewrite Hkey, En. cbn [negb]. eexists. split; [reflexivity|].
      split; [exact Hk|]. split; [reflexivity|].
      split; [|reflexivity]. eexists.
      cbn [_stack set_postColon set_stack set_events].
      rewrite Hst. split; reflexivity. }
    destruct Hd1 as (s1 & Hd1 & Hk1 & Hc1 & (f & Hst1 & Hf) & Hev1).
    pose proof (reaches_one _ _ _ _ _ (proj2 Hr) Hk Hd1) as R1.
    cbn [fst snd] in R1.
    pose proof Hs as Hs1. apply suffix_at_tail in Hs1.
    assert (Hcl : is_terminator (JNum c) = true)
      by (destruct Hd as [[_ ->]|[_ ->]]; reflexivity).
    destruct (scan_nested inner Hin data _ c ws2 s1 Hs1 Hcl
                ltac:(rewrite Hst1; discriminate) Hk1)
      as (i2 & s2 & R2 & H2).
    destruct H2 as [H2|(-> & Hk2 & Hsf2 & Hev2)].
    { exists i2, s2. split; [|split; [|now left]].
      - eapply reaches_trans; [exact R0|]. eapply reaches_trans; eauto.
      - intro f'. now apply write_loop_skipped. }
    destruct Hsf2 as (g & g' & r & E1 & E2 & _ & Hstart & _).
    rewrite Hst1 in E1. injection E1 as <- <-.
    destruct (reaches_calls _ _ _ _ _ R2) as (more & Hmore).
    pose proof Hs1 as Hs3. apply suffix_at_app in Hs3.
    pose proof (suffix_at_head _ _ _ _ Hs3) as Hg3.
    pose proof (get_num_range _ _ _ Hg3) as Hr3.
    assert (Hsl : slice data (frame_start g')
                    (Z.of_nat (length ws1) + 1 + Z.of_nat (length inner) + 1)
                  = like data (o :: inner ++ [c])).
    { rewrite Hstart, Hf.
      replace (Z.of_nat (length ws1) + 1 + Z.of_nat (length inner) + 1)
        with (Z.of_nat (length ws1) + Z.of_nat (length (o :: inner ++ [c])))
        by (cbn [length]; rewrite length_app; cbn [length]; lia).
      now apply (slice_token data ws1 _ ws2). }
    assert (Hd3 : exists s3,
               dispatch utf8Slice O data
                 (Z.of_nat (length ws1) + 1 + Z.of_nat (length inner)) s2
               = Ret (Z.of_nat (length ws1) + 1 + Z.of_nat (length inner), s3) /\
               _stack s3 = [] /\ _events s3 = _events s /\
               s3 = set_events (_events s)
                      (called (listeners_at ROOT_KEY (_events s))
                              (like data (o :: inner ++ [c]))
                              (set_stack [] s2))).
    { rewrite (dispatch_close _ _ _ _ o c Hd Hg3). unfold _onCloseBlock.
      rewrite E2. cbv zeta. rewrite emit_if_listener. cbn [bind].
      cbn [_events set_events called set_stack].
      rewrite Hev2, Hev1, up_down, Hsl, (listeners_down _ _ En).
      eexists. split; [reflexivity|]. repeat split. }
    destruct Hd3 as (s3 & Hd3 & Hst3 & Hev3 & Hs3eq).
    pose proof (reaches_one _ _ _ _ _ (proj2 Hr3) Hk2 Hd3) as R3.
    cbn [fst snd] in R3.
    assert (R : reaches utf8Slice data 0 s
                  (Z.of_nat (length ws1) + 1 + Z.of_nat (length inner) + 1) s3).
    { eapply reaches_trans; [exact R0|]. eapply reaches_trans; [exact R1|].
      eapply reaches_trans; eauto. }
    destruct (_skipped s3) eqn:Hk3.
    { exists (Z.of_nat (length ws1) + 1 + Z.of_nat (length inner) + 1), s3.
      split; [exact R|]. split; [|now left].
      intro f'. now apply write_loop_skipped. }
    destruct (Hend s3 Hk3 Hs2) as (i1 & Rend & Hexit).
    exists i1, s3. split; [eapply reaches_trans; eauto|].
    split; [exact Hexit|]. right. repeat split; try assumption.
    exists more. rewrite Hs3eq. cbn [_calls set_events called set_stack _skipped].
    rewrite Hk2, Hmore, Hc1, <- app_assoc. reflexivity.
  - (* the root is not registered: the whole document is skipped *)
    destruct (suffix_at_units _ _ _ Hs ltac:(discriminate)) as (pre & Hu' & Hpre).
    pose proof (delimiters_plain _ _ Hd) as (Hoq & Hcq & Hoc).
    assert (Hd1 : dispatch utf8Slice (S (length inner)) data
                    (Z.of_nat (length ws1)) s
                  = Ret (Z.of_nat (length ws1) + 1 + Z.of_nat (length inner), s)).
    { rewrite (dispatch_open _ _ _ _ o c Hd Hg). unfold _onOpenBlock.
      rewrite Hkey, En. cbn [negb]. rewrite <- Hpre.
      rewrite (skipBlock_balanced o c data pre inner ws2);
        [reflexivity|auto using Nested_balanced..]. }
    pose proof (reaches_one _ _ _ _ _ (proj2 Hr) Hk Hd1) as R1.
    cbn [fst snd] in R1.
    destruct (Hend s Hk Hs2) as (i1 & Rend & Hexit).
    exists i1, s. split.
    { eapply reaches_trans; [exact R0|]. eapply reaches_trans; eauto. }
    split; [exact Hexit|]. right. repeat split; try assumption.
    exists []. rewrite (listeners_at_none _ _ En). simpl.
    now rewrite app_nil_r.
Qed.


(** X12. On such a document, unless a listener calls [skip()], the loop of
    [write] ends with the stack empty and the cursor back, and the last
    listeners it has called are those of the root path, in registration
    order, with the text of the container from its opening to its closing
    delimiter. *)
Theorem write_container_root_listeners
        (data : Data) (ws1 inner ws2 : list Z) (o c : Z) (s : FastJson) :
  units data = ws1 ++ (o :: inner ++ [c]) ++ ws2 ->
  Forall (fun x => whitespace x = true) ws1 ->
  Forall (fun x => whitespace x = true) ws2 ->
  delimiters o c -> Nested inner ->
  _stack s = [] -> _skipped s = false ->
  exists fuel, forall fuel', (fuel <= fuel')%nat ->
    exists s1,
      write_loop utf8Slice fuel' data 0 s = Ret s1 /\
      (_skipped s1 = true \/
       (_stack s1 = [] /\ _events s1 = _events s /\
        exists before,
          _calls s1
          = _calls s ++ before
                    ++ fst (EventTree.invoke (listeners_at ROOT_KEY (_events s))
                                             (like data (o :: inner ++ [c]))
                                             false))).
Proof.
  intros Hu Hws1 Hws2 Hd Hin Hst Hk.
  destruct (scan_container data ws1 inner ws2 o c s Hu Hws1 Hws2 Hd Hin Hst Hk)
    as (i1 & s1 & R & Hexit & H).
  destruct (reaches_returns _ _ _ _ _ R Hexit) as (F & HF).
  exists F. intros fuel' Hle. exists s1. split; [now apply HF|].
  destruct H as [Hk1|(_ & Hst1 & Hev1 & Hcalls)]; [now left|right; auto].
Qed.


(** X16. A [write] that starts with the cancellation flag up, [skip()]
    having been called outside a [write], reads nothing of its data: on any
    data at all it returns at once, calls no listener and leaves the scanner
    as [_skipCleanUp] makes it, flag down. *)
Theorem write_after_skip_reads_nothing
        (fuel : nat) (data : Data) (s : FastJson) :
  write utf8Slice fuel data (skip s) = Ret (_skipCleanUp s).
Proof.
  unfold write.
  assert (E : write_loop utf8Slice fuel data 0 (skip s) = Ret (skip s))
    by (destruct fuel; cbn; now rewrite andb_false_r).
  rewrite E. reflexivity.
Qed.

End Coverage.

(** ** Instances of the further properties *)

Lemma write_blank_document_witness :
  write ascii_only 4 doc_blank root_listener = Ret root_listener.
Proof.
  apply (write_blank_document ascii_only doc_blank root_listener 4).
  - repeat constructor.
  - reflexivity.
  - simpl. lia.
Defined.

Lemma write_stray_delimiter_throws_witness :
  write ascii_only 5 doc_stray root_listener = TypeError.
Proof.
  apply (write_stray_delimiter_throws ascii_only doc_stray [SPACE] []
           CLOSE_BRACKET root_listener 5).
  - reflexivity.
  - repeat constructor.
  - right. left. reflexivity.
  - reflexivity.
  - reflexivity.
  - simpl. lia.
Defined.

Lemma write_top_level_scalar_throws_witness :
  exists fuel, forall fuel', (fuel <= fuel')%nat ->
    write ascii_only fuel' doc_string root_listener = TypeError.
Proof.
  apply (write_top_level_scalar_throws ascii_only doc_string []
           (units doc_string) [] root_listener).
  - reflexivity.
  - constructor.
  - left. exists [97; 98; 99]. split; [reflexivity|].
    repeat (apply StrBody_char; [discriminate..|]). apply StrBody_nil.
  - reflexivity.
  - reflexivity.
  - reflexivity.
Defined.

Lemma quoted_string_pending_key_witness :
  exists fuel, forall fuel', (fuel <= fuel')%nat ->
    exists s',
      dispatch ascii_only fuel' doc_object (Z.of_nat (length [OPEN_BRACE]))
               in_object
      = Ret (Z.of_nat (length [OPEN_BRACE]) + 1 + Z.of_nat (length [97]), s') /\
      _postColon s' = false /\ _stack s' = _stack in_object /\
      _events s' = _events in_object /\
      _getKeyForPrimitiveObject ascii_only doc_object s' = [97] /\
      _calls s' = _calls in_object
                  ++ fst (EventTree.invoke
                            (scalar_listeners ascii_only doc_object in_object)
                            (like doc_object [97]) (_skipped in_object)).
Proof.
  apply (quoted_string_pending_key ascii_only doc_object [OPEN_BRACE] [97]
           (units (json ":1,'b':[2,3]}")) in_object).
  - reflexivity.
  - apply StrBody_char; [discriminate..|]. apply StrBody_nil.
  - right. discriminate.
Defined.

Lemma dispatch_progress_witness : 1 <= 3 < data_length doc_object.
Proof.
  eapply (dispatch_progress ascii_only 5 doc_object 1 in_object (3, _)).
  reflexivity.
Defined.


Lemma doc_padded_nested : Nested (units (json "'a':[1,true]")).
Proof.
  apply (Nested_string [97] (units (json ":[1,true]")));
    [apply StrBody_char; [discriminate..|]; apply StrBody_nil|].
  apply Nested_separator; [reflexivity|].
  apply (Nested_block OPEN_BRACKET CLOSE_BRACKET (units (json "1,true")) []);
    [right; split; reflexivity| |apply Nested_nil].
  apply (Nested_primitive [49] (units (json ",true")));
    [discriminate|repeat constructor|reflexivity|].
  apply Nested_separator; [reflexivity|].
  apply (Nested_primitive (units (json "true")) []);
    [discriminate|repeat constructor|exact I|apply Nested_nil].
Qed.


Lemma write_container_root_listeners_witness :
  exists fuel, forall fuel', (fuel <= fuel')%nat ->
    exists s1,
      write_loop ascii_only fuel' doc_padded 0 root_listener = Ret s1 /\
      (_skipped s1 = true \/
       (_stack s1 = [] /\ _events s1 = _events root_listener /\
        exists before,
          _calls s1
          = _calls root_listener ++ before
            ++ fst (EventTree.invoke
                      (listeners_at ROOT_KEY (_events root_listener))
                      (json "{'a':[1,true]}") false))).
Proof.
  apply (write_container_root_listeners ascii_only doc_padded [SPACE]
           (units (json "'a':[1,true]")) [SPACE] OPEN_BRACE CLOSE_BRACE
           root_listener).
  - reflexivity.
  - repeat constructor.
  - repeat constructor.
  - left. split; reflexivity.
  - exact doc_padded_nested.
  - reflexivity.
  - reflexivity.
Defined.

Lemma doc_elements_counted :
  Counted (units (json "5]")) (units (json "'x,y',[8,9],")) 2.
Proof.
  apply (Counted_string _ (units (json "x,y")) (units (json ",[8,9],")) 2);
    [repeat (apply StrBody_char; [discriminate..|]); apply StrBody_nil|].
  apply (Counted_separator _ COMMA (units (json "[8,9],")) 1); [reflexivity|].
  apply (Counted_block _ OPEN_BRACKET CLOSE_BRACKET (units (json "8,9")) 1
           (units (json ",")) 1); [right; split; reflexivity| |].
  - apply (Counted_primitive _ [56] (units (json ",9")) 1);
      [discriminate|repeat constructor|reflexivity|].
    apply (Counted_separator _ COMMA [57] 0); [reflexivity|].
    apply (Counted_primitive _ [57] [] 0);
      [discriminate|repeat constructor|reflexivity|apply Counted_nil].
  - apply (Counted_separator _ COMMA [] 0); [reflexivity|apply Counted_nil].
Qed.

Lemma element_index_counts_commas_witness :
  exists i' s',
    reaches ascii_only doc_elements 1 in_array i' s' /\
    (_skipped s' = true \/
     (i' = 1 + Z.of_nat (length (units (json "'x,y',[8,9],"))) /\
      _events s' = _events in_array /\
      _stack s' = [mkFrame TYPE_ARRAY 0 ROOT_KEY (0 + 2)] /\
      _getKey ascii_only doc_elements s' = codes "2")).
Proof.
  apply (element_index_counts_commas ascii_only (units (json "5]"))
           (units (json "'x,y',[8,9],")) 2 doc_elements 1 in_array
           (mkFrame TYPE_ARRAY 0 ROOT_KEY 0) []).
  - exact doc_elements_counted.
  - split; [lia|reflexivity].
  - reflexivity.
  - reflexivity.
Defined.

Lemma primitive_token_listeners_witness :
  exists fuel, forall fuel', (fuel <= fuel')%nat ->
    dispatch ascii_only fuel' doc_primitive (Z.of_nat (length [OPEN_BRACKET]))
             in_array
    = Ret (Z.of_nat (length [OPEN_BRACKET])
           + Z.of_nat (length (units (json "rue"))),
           set_postColon false
             (called (scalar_listeners ascii_only doc_primitive in_array)
                     (json "true") in_array)).
Proof.
  apply (primitive_token_listeners ascii_only doc_primitive [OPEN_BRACKET]
           116 (units (json "rue")) COMMA (units (json "1]")) in_array).
  - reflexivity.
  - reflexivity.
  - repeat constructor.
  - reflexivity.
  - right. discriminate.
Defined.

